(** * Edtronaut execution engine: the asynchronous execution pipeline

    A shallow embedding of the queue producer ([src/queue/producer.ts]),
    the execution worker ([src/queue/worker.ts]), the status store
    ([src/db.ts]) and the polling route of the HTTP layer ([src/index.ts]).

    The program talks to four outside parties: a MySQL store, the local file
    system, a subprocess, and a Redis-backed queue.  Their state is gathered
    in one record [World], which every operation threads through; what the
    outside decides (whether a call throws, how long it takes, what the
    subprocess prints and when it exits) is read from an [Env], indexed by
    the number of external calls made so far.  JavaScript exceptions are the
    [Throw] results of a small state-and-error monad [M]. *)

From Stdlib Require Import ZArith Lia Ascii.
From stdpp Require Import base strings gmap list pretty.

Local Open Scope Z_scope.

(** ** Data model ([src/db.ts]) *)

Inductive SessionStatus := ACTIVE | ARCHIVED.

Inductive ExecutionStatus := QUEUED | RUNNING | COMPLETED | FAILED | TIMEOUT.

#[global] Instance ExecutionStatus_eq_dec : EqDecision ExecutionStatus.
Proof. solve_decision. Defined.

(** [created_at] and [updated_at] are filled in by the column defaults of the
    database engine and are read by no operation of the program; the records
    carry the remaining columns. *)
Record CodeSession := {
  cs_id : string;
  cs_language : string;
  cs_source_code : string;
  cs_status : SessionStatus
}.

Record Execution := {
  id : string;
  session_id : string;
  status : ExecutionStatus;
  stdout : option string;
  stderr : option string;
  execution_time_ms : option Z
}.

(** The job payload of the queue ([interface ExecutionJob]). *)
Record ExecutionJob := {
  executionId : string;
  language : string;
  code : string
}.

(** Options handed to [Queue.add]. *)
Inductive BackoffType := exponential | fixed.

Record JobOpts := {
  attempts : Z;
  backoff_type : BackoffType;
  backoff_delay : Z;
  removeOnComplete : bool;
  removeOnFail : bool
}.

Record QueuedJob := {
  job_name : string;
  job_data : ExecutionJob;
  job_opts : JobOpts
}.

(** ** The outside world *)

(** What a spawned subprocess does: the time after which it exits when left
    alone ([None]: never), its exit code, the bytes it writes to its two
    streams, and whether it survives the termination signal SIGTERM (it
    ignores the signal, or handles it without exiting). *)
Record Proc := {
  exit_after : option Z;
  exit_code : Z;
  proc_stdout : string;
  proc_stderr : string;
  ignores_sigterm : bool
}.

Inductive Event :=
  | EvInsert (eid sid : string)
  | EvUpdate (eid : string) (st : ExecutionStatus)
             (out err : option string) (ms : option Z)
  | EvWriteFile (path content : string)
  | EvUnlink (path : string)
  | EvSpawn (cmd : list string)
  | EvKill (cmd : list string)
  | EvLog (msg : string)
  | EvError (msg : string).

(** [alive] lists the subprocesses that are running, each under the number
    of the call that started it. *)
Record World := {
  sessions : gmap string CodeSession;
  executions : gmap string Execution;
  files : gmap string string;
  queue : list QueuedJob;
  now : Z;
  tick : nat;
  trace : list Event;
  alive : list nat
}.

(** The decisions of the outside.  Every oracle is indexed by [tick], the
    number of external calls already made: [dbFault env t = Some msg] says
    that a store query issued as call number [t] throws [Error(msg)].
    [run env cmd fs] is the behaviour of the command line [cmd] started on
    the file system [fs]. *)
Record Env := {
  cwd : string;
  latency : nat -> Z;
  dbFault : nat -> option string;
  writeFault : nat -> option string;
  unlinkFault : nat -> option string;
  spawnFault : nat -> option string;
  streamFault : nat -> option string;
  queueFault : nat -> option string;
  uuidv4 : nat -> string;
  run : list string -> gmap string string -> Proc
}.

Definition set_sessions (f : gmap string CodeSession -> gmap string CodeSession)
    (w : World) : World :=
  {| sessions := f (sessions w); executions := executions w; files := files w;
     queue := queue w; now := now w; tick := tick w;
     trace := trace w; alive := alive w |}.

Definition set_executions (f : gmap string Execution -> gmap string Execution)
    (w : World) : World :=
  {| sessions := sessions w; executions := f (executions w); files := files w;
     queue := queue w; now := now w; tick := tick w;
     trace := trace w; alive := alive w |}.

Definition set_files (f : gmap string string -> gmap string string)
    (w : World) : World :=
  {| sessions := sessions w; executions := executions w; files := f (files w);
     queue := queue w; now := now w; tick := tick w;
     trace := trace w; alive := alive w |}.

Definition set_queue (f : list QueuedJob -> list QueuedJob) (w : World) : World :=
  {| sessions := sessions w; executions := executions w; files := files w;
     queue := f (queue w); now := now w; tick := tick w;
     trace := trace w; alive := alive w |}.

Definition set_alive (f : list nat -> list nat) (w : World) : World :=
  {| sessions := sessions w; executions := executions w; files := files w;
     queue := queue w; now := now w; tick := tick w; trace := trace w;
     alive := f (alive w) |}.

Definition emit (e : Event) (w : World) : World :=
  {| sessions := sessions w; executions := executions w; files := files w;
     queue := queue w; now := now w; tick := tick w;
     trace := trace w ++ [e]; alive := alive w |}.

Definition advance (ms : Z) (w : World) : World :=
  {| sessions := sessions w; executions := executions w; files := files w;
     queue := queue w; now := now w + ms; tick := tick w;
     trace := trace w; alive := alive w |}.

(** One external call: time passes and the call counter moves on. *)
Definition elapse (env : Env) (w : World) : World :=
  {| sessions := sessions w; executions := executions w; files := files w;
     queue := queue w; now := now w + latency env (tick w); tick := S (tick w);
     trace := trace w; alive := alive w |}.

(** ** The monad of the handlers *)

Inductive Result (A : Type) :=
  | Ok (a : A)
  | Throw (message : string).
Arguments Ok {A} a.
Arguments Throw {A} message.

Definition M (A : Type) : Type := Env -> World -> Result A * World.

Definition ret {A} (a : A) : M A := fun _ w => (Ok a, w).

Definition throw {A} (message : string) : M A := fun _ w => (Throw message, w).

Definition bind {A B} (m : M A) (k : A -> M B) : M B :=
  fun env w =>
    match m env w with
    | (Ok a, w') => k a env w'
    | (Throw e, w') => (Throw e, w')
    end.

(** [try { m } catch (error) { h error }] *)
Definition try_catch {A} (m : M A) (h : string -> M A) : M A :=
  fun env w =>
    match m env w with
    | (Ok a, w') => (Ok a, w')
    | (Throw e, w') => h e env w'
    end.

(** [try { m } finally { f }]: [f] runs on both exits of [m]; an exception
    of [f] replaces the outcome of [m]. *)
Definition finally {A} (m : M A) (f : M unit) : M A :=
  fun env w =>
    match m env w with
    | (r, w') =>
        match f env w' with
        | (Ok _, w'') => (r, w'')
        | (Throw e, w'') => (Throw e, w'')
        end
    end.

Declare Scope m_scope.
Delimit Scope m_scope with M.
Notation "'let*' x ':=' m 'in' k" := (bind m (fun x => k))
  (at level 10, x name, m at level 100, k at level 200, only parsing) : m_scope.
Local Open Scope m_scope.

(** The final world and the outcome of running a handler. *)
Definition exec {A} (m : M A) (env : Env) (w : World) : World := snd (m env w).
Definition outcome {A} (m : M A) (env : Env) (w : World) : Result A := fst (m env w).

(** ** Primitives *)

(** [Date.now()] *)
Definition Date_now : M Z := fun _ w => (Ok (now w), w).

Definition console_log (msg : string) : M unit := fun _ w => (Ok tt, emit (EvLog msg) w).
Definition console_error (msg : string) : M unit := fun _ w => (Ok tt, emit (EvError msg) w).

(** [path.join] of [node:path], in its POSIX form: the arguments that are
    not empty are joined with a separator and the result is normalised.
    [segments] splits a path at its separators; [normalizeSegment] is one
    step of [normalizeString], which drops empty and [.] segments and lets a
    [..] segment remove the segment before it. *)
Definition is_separator (c : ascii) : bool := Ascii.eqb c "/".

Fixpoint segments (path : string) : list string :=
  match path with
  | EmptyString => [EmptyString]
  | String c rest =>
      if is_separator c then EmptyString :: segments rest
      else match segments rest with
           | seg :: more => String c seg :: more
           | [] => [String c EmptyString]
           end
  end.

(** [res] holds the segments kept so far, the last one first. *)
Definition normalizeSegment (allowAboveRoot : bool) (res : list string)
    (seg : string) : list string :=
  if String.eqb seg "" || String.eqb seg "." then res
  else if String.eqb seg ".."
       then match res with
            | last :: before =>
                if String.eqb last ".."
                then (if allowAboveRoot then seg :: res else res)
                else before
            | [] => if allowAboveRoot then [seg] else []
            end
       else seg :: res.

Fixpoint join_segments (l : list string) : string :=
  match l with
  | [] => ""
  | [seg] => seg
  | seg :: rest => seg +:+ "/" +:+ join_segments rest
  end.

Definition normalizeString (path : string) (allowAboveRoot : bool) : string :=
  join_segments (rev (fold_left (normalizeSegment allowAboveRoot) (segments path) [])).

Definition starts_with_separator (path : string) : bool :=
  match path with
  | String c _ => is_separator c
  | EmptyString => false
  end.

Fixpoint ends_with_separator (path : string) : bool :=
  match path with
  | EmptyString => false
  | String c EmptyString => is_separator c
  | String _ rest => ends_with_separator rest
  end.

Definition normalize (path : string) : string :=
  if String.eqb path "" then "."
  else
    let isAbsolute := starts_with_separator path in
    let trailingSeparator := ends_with_separator path in
    let res := normalizeString path (negb isAbsolute) in
    if String.eqb res ""
    then (if isAbsolute then "/" else if trailingSeparator then "./" else ".")
    else (if isAbsolute then "/" else "") +:+ res
         +:+ (if trailingSeparator then "/" else "").

Definition join (dir name : string) : string :=
  if String.eqb dir ""
  then (if String.eqb name "" then "." else normalize name)
  else if String.eqb name "" then normalize dir
       else normalize (dir +:+ "/" +:+ name).

(** [const TEMP_DIR = join(process.cwd(), "temp_execution")] *)
Definition tempDir (env : Env) : string := join (cwd env) "temp_execution".

Definition TEMP_DIR : M string := fun env w => (Ok (tempDir env), w).

(** *** Text of a byte stream

    [Response.text()] decodes with the UTF-8 decoder of the Encoding
    standard: a byte order mark at the start is dropped, and every maximal
    ill-formed run of bytes becomes one U+FFFD REPLACEMENT CHARACTER.  A
    JavaScript string that comes out of the decoder is well formed, and is
    represented here by its UTF-8 bytes. *)
Definition REPLACEMENT_CHARACTER : string :=
  String "239" (String "191" (String "189" EmptyString)).

Definition in_range (lo b hi : N) : bool := ((lo <=? b) && (b <=? hi))%N.

(** What a byte means at the start of a sequence: a character of its own,
    the first of [needed] more bytes of which the next one must lie between
    the two boundaries, or a byte that starts nothing. *)
Inductive Lead :=
  | OneByte
  | Starts (needed : nat) (lower upper : N)
  | Malformed.

Definition lead (b : N) : Lead :=
  if (b <=? 127)%N then OneByte
  else if in_range 194 b 223 then Starts 1 128 191
  else if in_range 224 b 239
       then Starts 2 (if (b =? 224)%N then 160 else 128)%N
                     (if (b =? 237)%N then 159 else 191)%N
  else if in_range 240 b 244
       then Starts 3 (if (b =? 240)%N then 144 else 128)%N
                     (if (b =? 244)%N then 143 else 191)%N
  else Malformed.

(** The state of the decoder inside a sequence. *)
Record Partial := {
  bytes_needed : nat;
  lower_boundary : N;
  upper_boundary : N;
  bytes_seen : string
}.

Fixpoint decode (st : option Partial) (bytes : string) : string :=
  match bytes with
  | EmptyString =>
      match st with
      | None => EmptyString
      | Some _ => REPLACEMENT_CHARACTER
      end
  | String c rest =>
      let b := N_of_ascii c in
      let fresh :=
        match lead b with
        | OneByte => String c (decode None rest)
        | Starts n lo hi =>
            decode (Some {| bytes_needed := n; lower_boundary := lo;
                            upper_boundary := hi;
                            bytes_seen := String c EmptyString |}) rest
        | Malformed => REPLACEMENT_CHARACTER +:+ decode None rest
        end in
      match st with
      | None => fresh
      | Some p =>
          if in_range (lower_boundary p) b (upper_boundary p)
          then match bytes_needed p with
               | 1%nat => bytes_seen p +:+ String c (decode None rest)
               | n => decode (Some {| bytes_needed := Nat.pred n;
                                      lower_boundary := 128;
                                      upper_boundary := 191;
                                      bytes_seen := bytes_seen p
                                                    +:+ String c EmptyString |})
                             rest
               end
          else REPLACEMENT_CHARACTER +:+ fresh
      end
  end.

Definition BYTE_ORDER_MARK : string :=
  String "239" (String "187" (String "191" EmptyString)).

Definition strip_bom (bytes : string) : string :=
  match bytes with
  | String c1 (String c2 (String c3 rest)) =>
      if String.eqb (String c1 (String c2 (String c3 EmptyString))) BYTE_ORDER_MARK
      then rest else bytes
  | _ => bytes
  end.

Definition utf8_decode (bytes : string) : string := decode None (strip_bom bytes).

(** [uuidv4()] *)
Definition uuid : M string := fun env w => (Ok (uuidv4 env (tick w)), w).

(** [fs/promises.writeFile] *)
Definition writeFile (path content : string) : M unit :=
  fun env w =>
    let w1 := elapse env w in
    match writeFault env (tick w) with
    | Some e => (Throw e, w1)
    | None => (Ok tt, emit (EvWriteFile path content) (set_files (insert path content) w1))
    end.

(** [fs.existsSync]: synchronous, never throws. *)
Definition existsSync (path : string) : M bool :=
  fun _ w => (Ok (bool_decide (is_Some (files w !! path))), w).

(** [fs/promises.unlink] *)
Definition unlink (path : string) : M unit :=
  fun env w =>
    let w1 := elapse env w in
    match unlinkFault env (tick w) with
    | Some e => (Throw e, w1)
    | None =>
        match files w !! path with
        | None => (Throw ("ENOENT: no such file or directory, unlink '" +:+ path +:+ "'"), w1)
        | Some _ => (Ok tt, emit (EvUnlink path) (set_files (delete path) w1))
        end
    end.

(** The handle returned by [Bun.spawn]. *)
Record Subprocess := {
  sp_pid : nat;
  sp_cmd : list string;
  sp_proc : Proc
}.

(** [Bun.spawn(cmd, { stdout: "pipe", stderr: "pipe" })] *)
Definition spawn (cmd : list string) : M Subprocess :=
  fun env w =>
    let w1 := elapse env w in
    match spawnFault env (tick w) with
    | Some e => (Throw e, w1)
    | None => (Ok {| sp_pid := tick w; sp_cmd := cmd;
                     sp_proc := run env cmd (files w) |},
               emit (EvSpawn cmd) (set_alive (cons (tick w)) w1))
    end.

Definition EXECUTION_TIMEOUT_MS : Z := 5000.

Definition TIMEOUT_MESSAGE : string := "Execution Timed Out".

(** [proc.kill()]: sends the subprocess the default signal, SIGTERM.  A
    subprocess that does not ignore the signal is gone; one that ignores it
    keeps running. *)
Definition reaped (pid : nat) (l : list nat) : list nat :=
  filter (fun q => q <> pid) l.

Definition kill (proc : Subprocess) (w : World) : World :=
  emit (EvKill (sp_cmd proc))
    (set_alive (fun l => if ignores_sigterm (sp_proc proc) then l
                         else reaped (sp_pid proc) l) w).

(** [Promise.race([proc.exited, <rejects when timeoutSignal aborts>])]: the
    exit wins when the subprocess exits before the timer of
    [AbortSignal.timeout(EXECUTION_TIMEOUT_MS)] fires; otherwise the abort
    callback calls [proc.kill()] and rejects.  The timer is never cancelled:
    when the exit has won, the callback still runs once the 5000 ms are
    over, on its own and not as a step of this handler run; it then calls
    [kill] on a subprocess that has exited (see [kill_after_exit]) and
    rejects a promise that is settled. *)
Definition exits_first (p : Proc) : bool :=
  match exit_after p with
  | Some t => t <? EXECUTION_TIMEOUT_MS
  | None => false
  end.

Definition race (proc : Subprocess) : M Z :=
  fun env w =>
    let w1 := elapse env w in
    match exit_after (sp_proc proc) with
    | Some t =>
        if t <? EXECUTION_TIMEOUT_MS
        then (Ok (exit_code (sp_proc proc)),
              set_alive (reaped (sp_pid proc)) (advance t w1))
        else (Throw TIMEOUT_MESSAGE, kill proc (advance EXECUTION_TIMEOUT_MS w1))
    | None => (Throw TIMEOUT_MESSAGE, kill proc (advance EXECUTION_TIMEOUT_MS w1))
    end.

(** [new Response(stream).text()]: reads the pipe to its end and decodes
    the bytes as UTF-8.  The read returns when the pipe reaches end-of-file,
    that is when the subprocess and every descendant that inherited the pipe
    have closed it; this wait is the latency of the call, which the
    environment chooses and which the timer of the race does not bound.
    The runs described are those whose reads return: a pipe that is never
    closed leaves the handler waiting at this call. *)
Definition text (stream : string) : M string :=
  fun env w =>
    let w1 := elapse env w in
    match streamFault env (tick w) with
    | Some e => (Throw e, w1)
    | None => (Ok (utf8_decode stream), w1)
    end.

(** ** The status store ([class DB] of [src/db.ts]) *)

Module DB.

(** [SELECT * FROM sessions WHERE id = ?] *)
Definition getSession (sid : string) : M (option CodeSession) :=
  fun env w =>
    let w1 := elapse env w in
    match dbFault env (tick w) with
    | Some e => (Throw e, w1)
    | None => (Ok (sessions w !! sid), w1)
    end.

(** [INSERT INTO sessions (id, language, source_code) VALUES (?, ?, ?)];
    the primary key rejects a second row with the same id. *)
Definition insertSession (sid lang source_code : string) : M unit :=
  fun env w =>
    let w1 := elapse env w in
    match dbFault env (tick w) with
    | Some e => (Throw e, w1)
    | None =>
        match sessions w !! sid with
        | Some _ => (Throw "ER_DUP_ENTRY", w1)
        | None =>
            (Ok tt, set_sessions (insert sid
               {| cs_id := sid; cs_language := lang;
                  cs_source_code := source_code; cs_status := ACTIVE |}) w1)
        end
    end.

Definition createSession (sid lang source_code : string) : M (option CodeSession) :=
  let* _ := insertSession sid lang source_code in getSession sid.

(** [UPDATE sessions SET source_code = ? WHERE id = ?] *)
Definition updateSessionRow (sid source_code : string) : M unit :=
  fun env w =>
    let w1 := elapse env w in
    match dbFault env (tick w) with
    | Some e => (Throw e, w1)
    | None =>
        (Ok tt, set_sessions (alter (fun s =>
           {| cs_id := cs_id s; cs_language := cs_language s;
              cs_source_code := source_code; cs_status := cs_status s |}) sid) w1)
    end.

Definition updateSessionCode (sid source_code : string) : M (option CodeSession) :=
  let* _ := updateSessionRow sid source_code in getSession sid.

(** [SELECT * FROM executions WHERE id = ?], then [rows[0] || null]. *)
Definition getExecution (eid : string) : M (option Execution) :=
  fun env w =>
    let w1 := elapse env w in
    match dbFault env (tick w) with
    | Some e => (Throw e, w1)
    | None => (Ok (executions w !! eid), w1)
    end.

(** [INSERT INTO executions (id, session_id, status) VALUES (?, ?, 'QUEUED')]:
    the other columns take their default, NULL.  The primary key and the
    foreign key on [session_id] reject the row otherwise. *)
Definition insertExecution (eid sid : string) : M unit :=
  fun env w =>
    let w1 := elapse env w in
    match dbFault env (tick w) with
    | Some e => (Throw e, w1)
    | None =>
        match executions w !! eid, sessions w !! sid with
        | Some _, _ => (Throw "ER_DUP_ENTRY", w1)
        | None, None => (Throw "ER_NO_REFERENCED_ROW_2", w1)
        | None, Some _ =>
            (Ok tt, emit (EvInsert eid sid) (set_executions (insert eid
               {| id := eid; session_id := sid; status := QUEUED;
                  stdout := None; stderr := None;
                  execution_time_ms := None |}) w1))
        end
    end.

Definition createExecution (eid sid : string) : M (option Execution) :=
  let* _ := insertExecution eid sid in getExecution eid.

(** [UPDATE executions SET status = ?, stdout = ?, stderr = ?,
    execution_time_ms = ? WHERE id = ?]: an unconditional overwrite of
    the four columns of the row with that id, if there is one. *)
Definition overwrite (st : ExecutionStatus) (out err : option string)
    (timeMs : option Z) (e : Execution) : Execution :=
  {| id := id e; session_id := session_id e; status := st;
     stdout := out; stderr := err; execution_time_ms := timeMs |}.

Definition updateExecutionRow (eid : string) (st : ExecutionStatus)
    (out err : option string) (timeMs : option Z) : M unit :=
  fun env w =>
    let w1 := elapse env w in
    match dbFault env (tick w) with
    | Some e => (Throw e, w1)
    | None =>
        (Ok tt, emit (EvUpdate eid st out err timeMs)
                  (set_executions (alter (overwrite st out err timeMs) eid) w1))
    end.

Definition updateExecutionStatus (eid : string) (st : ExecutionStatus)
    (out err : option string) (timeMs : option Z) : M (option Execution) :=
  let* _ := updateExecutionRow eid st out err timeMs in getExecution eid.

End DB.

(** ** The producer ([src/queue/producer.ts]) *)

Definition executionJobOpts : JobOpts :=
  {| attempts := 2; backoff_type := exponential; backoff_delay := 1000;
     removeOnComplete := true; removeOnFail := false |}.

(** [executionQueue.add(name, data, opts)] *)
Definition queue_add (name : string) (data : ExecutionJob) (opts : JobOpts) : M unit :=
  fun env w =>
    let w1 := elapse env w in
    match queueFault env (tick w) with
    | Some e => (Throw e, w1)
    | None =>
        (Ok tt, set_queue (fun q =>
           q ++ [{| job_name := name; job_data := data; job_opts := opts |}]) w1)
    end.

Definition addExecutionJob (executionId language code : string) : M unit :=
  queue_add "execute"
    {| executionId := executionId; language := language; code := code |}
    executionJobOpts.

(** ** The execution worker ([src/queue/worker.ts]) *)

(** [`${executionId}.${language === "python" ? "py" : "js"}`] under
    [TEMP_DIR]. *)
Definition fileName (executionId language : string) : string :=
  executionId +:+ "." +:+ (if String.eqb language "python" then "py" else "js").

Definition filePath (env : Env) (executionId language : string) : string :=
  join (tempDir env) (fileName executionId language).

(** The closed table from language tags to interpreter command lines. *)
Definition supported (language : string) : bool :=
  String.eqb language "python"
  || (String.eqb language "javascript" || String.eqb language "typescript").

Definition resolveCommand (language path : string) : M (list string) :=
  if String.eqb language "python" then ret ["python3"; path]
  else if String.eqb language "javascript" || String.eqb language "typescript"
       then ret ["bun"; path]
       else throw ("Unsupported language: " +:+ language).

(** [stderr || null] *)
Definition or_null (s : string) : option string :=
  if String.eqb s "" then None else Some s.

(** The body of the [try] block. *)
Definition attempt (job : ExecutionJob) (startTime : Z) (path : string) : M unit :=
  let* _ := writeFile path (code job) in
  let* cmd := resolveCommand (language job) path in
  let* proc := spawn cmd in
  let* exited := race proc in
  let* out := text (proc_stdout (sp_proc proc)) in
  let* err := text (proc_stderr (sp_proc proc)) in
  let* finish := Date_now in
  let duration := finish - startTime in
  let* _ := console_log ("[Worker] Finished " +:+ executionId job +:+ " in "
                         +:+ pretty duration +:+ "ms") in
  let* _ := DB.updateExecutionStatus (executionId job) COMPLETED
              (Some out) (or_null err) (Some duration) in
  ret tt.

(** The body of the [catch (error)] block; [error] is [error.message]. *)
Definition recover (job : ExecutionJob) (startTime : Z) (error : string) : M unit :=
  let* _ := console_error ("[Worker] Failed " +:+ executionId job +:+ ": "
                           +:+ error) in
  let* finish := Date_now in
  let duration := finish - startTime in
  let st := if String.eqb error TIMEOUT_MESSAGE then TIMEOUT else FAILED in
  let errorMsg := error in
  let* _ := DB.updateExecutionStatus (executionId job) st None (Some errorMsg)
              (Some duration) in
  ret tt.

(** The body of the [finally] block. *)
Definition cleanup (path : string) : M unit :=
  try_catch
    (let* there := existsSync path in
     if there : bool then unlink path else ret tt)
    (fun _ => console_error ("Failed to cleanup file " +:+ path)).

(** The part of the handler guarded by [try]/[catch]/[finally]. *)
Definition guarded (job : ExecutionJob) (startTime : Z) (path : string) : M unit :=
  finally (try_catch (attempt job startTime path) (recover job startTime))
          (cleanup path).

(** The job handler passed to [new Worker("code-execution", ...)]. *)
Definition executionWorker (job : ExecutionJob) : M unit :=
  let* startTime := Date_now in
  let* _ := console_log ("[Worker] Processing execution " +:+ executionId job
                         +:+ " (" +:+ language job +:+ ")") in
  let* _ := DB.updateExecutionStatus (executionId job) RUNNING None None None in
  let* dir := TEMP_DIR in
  let path := join dir (fileName (executionId job) (language job)) in
  guarded job startTime path.

(** At-least-once delivery: the queue may hand the same job to the handler
    more than once; [deliver n] is [n] deliveries in a row, whatever each
    returns. *)
Fixpoint deliver (n : nat) (job : ExecutionJob) (env : Env) (w : World) : World :=
  match n with
  | O => w
  | S k => deliver k job env (exec (executionWorker job) env w)
  end.

(** ** The HTTP layer ([src/index.ts]) *)

Inductive JSON :=
  | JString (s : string)
  | JNumber (z : Z)
  | JNull.

Record Response := {
  code_of : Z;
  body : list (string * JSON)
}.

Definition status_name (st : ExecutionStatus) : string :=
  match st with
  | QUEUED => "QUEUED"
  | RUNNING => "RUNNING"
  | COMPLETED => "COMPLETED"
  | FAILED => "FAILED"
  | TIMEOUT => "TIMEOUT"
  end.

Definition session_status_name (st : SessionStatus) : string :=
  match st with
  | ACTIVE => "ACTIVE"
  | ARCHIVED => "ARCHIVED"
  end.

(** [value || ""] on a nullable string column. *)
Definition or_empty (o : option string) : string :=
  match o with
  | Some s => if String.eqb s "" then "" else s
  | None => ""
  end.

Definition nullable_number (o : option Z) : JSON :=
  match o with
  | Some z => JNumber z
  | None => JNull
  end.

Definition is_terminal (st : ExecutionStatus) : bool :=
  match st with
  | COMPLETED | FAILED | TIMEOUT => true
  | QUEUED | RUNNING => false
  end.

(** [.onError]: an exception of a route handler other than the router's own
    NOT_FOUND is logged and answered with the framework's status 500. *)
Definition onError (error : string) : M Response :=
  let* _ := console_error error in
  ret {| code_of := 500; body := [("error", JString "Internal Server Error")] |}.

(** [.get("/executions/:id", ...)] *)
Definition getExecutionRoute (eid : string) : M Response :=
  try_catch
    (let* execution := DB.getExecution eid in
     match execution with
     | None =>
         ret {| code_of := 404; body := [("error", JString "Execution not found")] |}
     | Some execution =>
         if is_terminal (status execution)
         then ret {| code_of := 200;
                     body := [("execution_id", JString (id execution));
                              ("status", JString (status_name (status execution)));
                              ("stdout", JString (or_empty (stdout execution)));
                              ("stderr", JString (or_empty (stderr execution)));
                              ("execution_time_ms",
                               nullable_number (execution_time_ms execution))] |}
         else ret {| code_of := 200;
                     body := [("execution_id", JString (id execution));
                              ("status", JString (status_name (status execution)))] |}
     end)
    onError.

(** [.post("/code-sessions/:id/run", ...)] *)
Definition runRoute (sid : string) : M Response :=
  try_catch
    (let* session := DB.getSession sid in
     match session with
     | None =>
         ret {| code_of := 404; body := [("error", JString "Session not found")] |}
     | Some session =>
         let* executionId := uuid in
         let* _ := DB.createExecution executionId (cs_id session) in
         let* _ := addExecutionJob executionId (cs_language session)
                     (cs_source_code session) in
         ret {| code_of := 200;
                body := [("execution_id", JString executionId);
                         ("status", JString "QUEUED")] |}
     end)
    onError.

(** [.post("/code-sessions", ...)]: the body carries [language] and an
    optional [source_code]; [session.id] on the null that [createSession]
    may hand back is a TypeError. *)
Definition createSessionRoute (language : string) (source_code : option string)
    : M Response :=
  try_catch
    (let* sid := uuid in
     let* session := DB.createSession sid language (or_empty source_code) in
     match session with
     | None => throw "TypeError: null is not an object (evaluating 'session.id')"
     | Some session =>
         ret {| code_of := 200;
                body := [("session_id", JString (cs_id session));
                         ("status",
                          JString (session_status_name (cs_status session)))] |}
     end)
    onError.

(** [.patch("/code-sessions/:id", ...)]: the body carries [source_code] and
    an optional [language], which the handler does not read. *)
Definition updateSessionRoute (sid : string) (language : option string)
    (source_code : string) : M Response :=
  try_catch
    (let* session := DB.updateSessionCode sid source_code in
     match session with
     | None =>
         ret {| code_of := 404; body := [("error", JString "Session not found")] |}
     | Some session =>
         ret {| code_of := 200;
                body := [("session_id", JString (cs_id session));
                         ("status",
                          JString (session_status_name (cs_status session)))] |}
     end)
    onError.

(** ** Vocabulary of the properties *)

(** The store answers every query. *)
Definition store_up (env : Env) : Prop := forall t, dbFault env t = None.

(** No call of the orchestration throws: the store, the file write, the
    spawn and the reads of the two streams all succeed. *)
Definition calm (env : Env) : Prop :=
  forall t, dbFault env t = None /\ writeFault env t = None
            /\ spawnFault env t = None /\ streamFault env t = None.

(** The events a handler added to the trace of [w] on its way to [w']. *)
Definition events_since (w w' : World) : list Event :=
  drop (length (trace w)) (trace w').

(** The statuses written to the row [eid], in order. *)
Definition status_writes (eid : string) (evs : list Event) : list ExecutionStatus :=
  omap (fun ev =>
          match ev with
          | EvUpdate i st _ _ _ => if String.eqb i eid then Some st else None
          | _ => None
          end) evs.

(** The interpreter of a supported language tag, and the command line the
    worker starts for it. *)
Definition interpreter (language : string) : option string :=
  if String.eqb language "python" then Some "python3"
  else if String.eqb language "javascript" || String.eqb language "typescript"
       then Some "bun"
       else None.

Definition commandLine (language path : string) : list string :=
  [default "" (interpreter language); path].

(** The subprocess the worker starts for [job] in world [w]: the command line
    of its language, run on the file system that holds the source file. *)
Definition subprocess_of (env : Env) (job : ExecutionJob) (w : World) : Proc :=
  let path := filePath env (executionId job) (language job) in
  run env (commandLine (language job) path) (<[path := code job]> (files w)).

(** The command lines started, and the paths written, in order. *)
Definition spawned (evs : list Event) : list (list string) :=
  omap (fun ev => match ev with EvSpawn cmd => Some cmd | _ => None end) evs.

Definition written (evs : list Event) : list string :=
  omap (fun ev => match ev with EvWriteFile p _ => Some p | _ => None end) evs.



(** The time the outside takes over [calls] external calls in a row, the
    first of which is call number [t]. *)
Fixpoint waited (env : Env) (t : nat) (calls : nat) : Z :=
  match calls with
  | O => 0
  | S k => latency env t + waited env (S t) k
  end.

(** Well-formed UTF-8, by the table of RFC 3629: one byte up to 7F; C2..DF
    and one tail byte; E0..EF and two, F0..F4 and three, where the first
    tail byte is narrowed after E0, ED, F0 and F4. *)
Definition tail_byte (c : ascii) : bool :=
  ((128 <=? N_of_ascii c) && (N_of_ascii c <=? 191))%N.

Definition second_of_three (c1 c2 : ascii) : bool :=
  let b1 := N_of_ascii c1 in
  let b2 := N_of_ascii c2 in
  (if (b1 =? 224)%N then (160 <=? b2) && (b2 <=? 191)
   else if (b1 =? 237)%N then (128 <=? b2) && (b2 <=? 159)
   else (128 <=? b2) && (b2 <=? 191))%N.

Definition second_of_four (c1 c2 : ascii) : bool :=
  let b1 := N_of_ascii c1 in
  let b2 := N_of_ascii c2 in
  (if (b1 =? 240)%N then (144 <=? b2) && (b2 <=? 191)
   else if (b1 =? 244)%N then (128 <=? b2) && (b2 <=? 143)
   else (128 <=? b2) && (b2 <=? 191))%N.

Fixpoint well_formed_utf8 (bytes : string) : bool :=
  match bytes with
  | EmptyString => true
  | String c1 r1 =>
      let b1 := N_of_ascii c1 in
      if (b1 <=? 127)%N then well_formed_utf8 r1
      else
        match r1 with
        | EmptyString => false
        | String c2 r2 =>
            if ((194 <=? b1) && (b1 <=? 223))%N
            then tail_byte c2 && well_formed_utf8 r2
            else
              match r2 with
              | EmptyString => false
              | String c3 r3 =>
                  if ((224 <=? b1) && (b1 <=? 239))%N
                  then second_of_three c1 c2 && tail_byte c3 && well_formed_utf8 r3
                  else
                    match r3 with
                    | EmptyString => false
                    | String c4 r4 =>
                        ((240 <=? b1) && (b1 <=? 244))%N
                        && second_of_four c1 c2 && tail_byte c3 && tail_byte c4
                        && well_formed_utf8 r4
                    end
              end
        end
  end.

Definition starts_with_bom (bytes : string) : bool :=
  match bytes with
  | String c1 (String c2 (String c3 _)) =>
      ((N_of_ascii c1 =? 239) && (N_of_ascii c2 =? 187) && (N_of_ascii c3 =? 191))%N
  | _ => false
  end.

(** Bytes that are the UTF-8 encoding of a text, with no byte order mark in
    front. *)
Definition utf8_text (bytes : string) : Prop :=
  well_formed_utf8 bytes = true /\ starts_with_bom bytes = false.

(** A sequence of statuses never leaves a terminal status: after a terminal
    status only that same status may follow. *)
Fixpoint never_leaves_terminal (l : list ExecutionStatus) : bool :=
  match l with
  | a :: ((b :: _) as rest) =>
      (negb (is_terminal a) || bool_decide (a = b)) && never_leaves_terminal rest
  | _ => true
  end.

(** The three result columns are unset on every row that is not terminal. *)
Definition unset_while_pending (w : World) : Prop :=
  forall eid e,
    executions w !! eid = Some e ->
    status e = QUEUED \/ status e = RUNNING ->
    stdout e = None /\ stderr e = None /\ execution_time_ms e = None.

(** A write to the executions table that carries QUEUED or RUNNING carries
    NULL in the three result columns. *)
Definition null_unless_terminal (ev : Event) : bool :=
  match ev with
  | EvUpdate _ st out err ms =>
      is_terminal st
      || (bool_decide (out = None) && bool_decide (err = None)
          && bool_decide (ms = None))
  | _ => true
  end.

(** The operations by which the program changes the world. *)
Inductive Op :=
  | OpCreateSession (sid lang source_code : string)
  | OpUpdateSessionCode (sid source_code : string)
  | OpCreateExecution (eid sid : string)
  | OpEnqueue (eid lang source_code : string)
  | OpRun (sid : string)
  | OpPoll (eid : string)
  | OpWork (job : ExecutionJob).

Definition perform (op : Op) (env : Env) (w : World) : World :=
  match op with
  | OpCreateSession sid lang src => exec (DB.createSession sid lang src) env w
  | OpUpdateSessionCode sid src => exec (DB.updateSessionCode sid src) env w
  | OpCreateExecution eid sid => exec (DB.createExecution eid sid) env w
  | OpEnqueue eid lang src => exec (addExecutionJob eid lang src) env w
  | OpRun sid => exec (runRoute sid) env w
  | OpPoll eid => exec (getExecutionRoute eid) env w
  | OpWork job => exec (executionWorker job) env w
  end.

(** The worlds the program gets to from an empty executions table, under
    any behaviour of the outside. *)
Inductive reachable : World -> Prop :=
  | reach_start w : executions w = ∅ -> reachable w
  | reach_step op env w : reachable w -> reachable (perform op env w).

(** A field of a JSON object. *)
Fixpoint field (k : string) (o : list (string * JSON)) : option JSON :=
  match o with
  | [] => None
  | (k', v) :: rest => if String.eqb k' k then Some v else field k rest
  end.

(** [appends ok w0 w]: the trace of [w] is the trace of [w0] followed by
    events that all pass [ok]. *)
Definition appends (ok : Event -> bool) (w0 w : World) : Prop :=
  exists evs, trace w = trace w0 ++ evs /\ forallb ok evs = true.

(** A property that looks only at the executions table and at the trace,
    and that survives appending events that pass [ok]. *)
Definition stable (ok : Event -> bool) (P : World -> Prop) : Prop :=
  forall w w', executions w' = executions w -> appends ok w w' -> P w -> P w'.

Definition is_spawn (ev : Event) : bool :=
  match ev with EvSpawn _ => true | _ => false end.

Definition is_update_of (eid : string) (ev : Event) : bool :=
  match ev with EvUpdate i _ _ _ _ => String.eqb i eid | _ => false end.

(** [wrote eid w0 l w]: since [w0], the statuses written to row [eid] are
    exactly [l]. *)
Definition wrote (eid : string) (w0 : World) (l : list ExecutionStatus)
    (w : World) : Prop :=
  exists evs, trace w = trace w0 ++ evs /\ status_writes eid evs = l.

(** [has_status eid st w]: row [eid] exists and carries status [st]. *)
Definition has_status (eid : string) (st : ExecutionStatus) (w : World) : Prop :=
  exists e, executions w !! eid = Some e /\ status e = st.

(** A pre- and postcondition for one run of [m] under [env], with one
    postcondition per way out. *)
Definition triple {A} (env : Env) (Pre : World -> Prop) (m : M A)
    (PostOk : A -> World -> Prop) (PostThrow : string -> World -> Prop) : Prop :=
  forall w, Pre w ->
    match m env w with
    | (Ok a, w') => PostOk a w'
    | (Throw e, w') => PostThrow e w'
    end.

(** The environment [env] with another behaviour of file removal. *)
Definition with_unlinkFault (f : nat -> option string) (env : Env) : Env :=
  {| cwd := cwd env; latency := latency env; dbFault := dbFault env;
     writeFault := writeFault env; unlinkFault := f;
     spawnFault := spawnFault env; streamFault := streamFault env;
     queueFault := queueFault env; uuidv4 := uuidv4 env; run := run env |}.

(** The world right after the worker has logged the job and persisted
    RUNNING. *)
Definition after_running (env : Env) (job : ExecutionJob) (w : World) : World :=
  elapse env
    (emit (EvUpdate (executionId job) RUNNING None None None)
       (set_executions (alter (DB.overwrite RUNNING None None None) (executionId job))
          (elapse env
             (emit (EvLog ("[Worker] Processing execution " +:+ executionId job
                           +:+ " (" +:+ language job +:+ ")")) w)))).

(** The world in which the race is run: the source file is written and the
    subprocess is started. *)
Definition after_spawn (env : Env) (job : ExecutionJob) (path : string)
    (w : World) : World :=
  emit (EvSpawn (commandLine (language job) path))
    (set_alive (cons (S (tick w)))
       (elapse env
          (emit (EvWriteFile path (code job))
             (set_files (insert path (code job)) (elapse env w))))).

(** The handle the worker holds on that subprocess. *)
Definition handle (env : Env) (job : ExecutionJob) (path : string)
    (w : World) : Subprocess :=
  {| sp_pid := S (tick w);
     sp_cmd := commandLine (language job) path;
     sp_proc := run env (commandLine (language job) path)
                  (<[path := code job]> (files w)) |}.

(** A property of the world that every run of [m] keeps. *)
Definition preserves {A} (P : World -> Prop) (m : M A) : Prop :=
  forall env w, P w -> P (exec m env w).

(** *** Vocabulary of the further properties *)

(** What identifies a row of the executions table. *)
Definition key_info (e : Execution) : string * string := (id e, session_id e).

(** Every session is stored under its id; every execution is stored under
    its id and belongs to a session of the table. *)
Definition well_keyed (w : World) : Prop :=
  (forall sid s, sessions w !! sid = Some s -> cs_id s = sid)
  /\ (forall eid e, executions w !! eid = Some e ->
        id e = eid /\ is_Some (sessions w !! session_id e)).

(** Everything a client or the queue can ask of the program. *)
Inductive Request :=
  | PostSession (language : string) (source_code : option string)
  | PatchSession (sid : string) (language : option string) (source_code : string)
  | PostRun (sid : string)
  | GetExecution (eid : string)
  | Deliver (job : ExecutionJob).

Definition serve (rq : Request) (env : Env) (w : World) : World :=
  match rq with
  | PostSession lang src => exec (createSessionRoute lang src) env w
  | PatchSession sid lang src => exec (updateSessionRoute sid lang src) env w
  | PostRun sid => exec (runRoute sid) env w
  | GetExecution eid => exec (getExecutionRoute eid) env w
  | Deliver job => exec (executionWorker job) env w
  end.

(** [serves w0 w]: the program gets from [w0] to [w] by serving requests,
    under any behaviour of the outside. *)
Inductive serves (w0 : World) : World -> Prop :=
  | serves_none : serves w0 w0
  | serves_one rq env w : serves w0 w -> serves w0 (serve rq env w).


(** A string without a path separator, and a file name that is one segment
    of a path and not one of the special segments. *)
Fixpoint no_separator (s : string) : bool :=
  match s with
  | EmptyString => true
  | String c rest => negb (Ascii.eqb c "/") && no_separator rest
  end.

Definition plain (name : string) : Prop :=
  no_separator name = true /\ name <> "" /\ name <> "." /\ name <> "..".

(** What [join dir] puts in front of a plain file name. *)
Definition joined_prefix (dir : string) : string :=
  if String.eqb dir "" then ""
  else
    (if starts_with_separator dir then "/" else "")
    +:+ match rev (fold_left (normalizeSegment (negb (starts_with_separator dir)))
                     (segments dir) []) with
        | [] => ""
        | l => join_segments l +:+ "/"
        end.

(** [unchanged w0 w]: the tables, the files and the queue of [w] are those
    of [w0]. *)
Definition unchanged (w0 w : World) : Prop :=
  sessions w = sessions w0 /\ executions w = executions w0
  /\ files w = files w0 /\ queue w = queue w0.

(** A property that survives every change that leaves the sessions and the
    queue alone, touches only files that pass [touch_file], only rows that
    pass [touch_row], and keeps the identity of every row. *)
Definition framed (touch_file touch_row : string -> Prop) (P : World -> Prop) : Prop :=
  forall w w',
    sessions w' = sessions w -> queue w' = queue w ->
    (forall p, ~ touch_file p -> files w' !! p = files w !! p) ->
    (forall i, ~ touch_row i -> executions w' !! i = executions w !! i) ->
    (forall i, key_info <$> executions w' !! i = key_info <$> executions w !! i) ->
    P w -> P w'.

(** [leads P Q m]: from a world with [P], every run of [m] ends, whichever
    way out it takes, in a world with [Q]. *)
Definition leads {A} (P Q : World -> Prop) (m : M A) : Prop :=
  forall env w, P w -> Q (exec m env w).

(** [spawns_at_most n w0 w]: since [w0] at most [n] subprocesses were
    started. *)
Definition spawns_at_most (n : nat) (w0 w : World) : Prop :=
  exists evs, trace w = trace w0 ++ evs /\ (length (spawned evs) <= n)%nat.

(** ** Sample jobs, worlds and environments *)

Definition quiet : nat -> option string := fun _ => None.

Definition newline : string := String "010"%char EmptyString.

(** A script that works for 4.9 seconds, prints a line and ends with a
    message on the error stream and exit code 1. *)
Definition slow_script : string :=
  "import sys, time" +:+ newline +:+ "time.sleep(4.9)" +:+ newline
  +:+ "print('out')" +:+ newline +:+ "sys.exit('warn')".

(** A script that ignores SIGTERM and sleeps for a minute. *)
Definition stubborn_script : string :=
  "import signal, time" +:+ newline
  +:+ "signal.signal(signal.SIGTERM, signal.SIG_IGN)" +:+ newline
  +:+ "time.sleep(60)".

(** A script that writes the single byte FF to its output. *)
Definition binary_script : string :=
  "import sys" +:+ newline +:+ "sys.stdout.buffer.write(bytes([255]))".

(** A subprocess behaviour in the manner of the interpreters: a script with
    an unterminated string literal is rejected at once with a message on
    the error stream and exit code 1; a script that sleeps six seconds
    exits after them when left alone; the three scripts above behave as
    described; every other script prints a line and exits with code 0. *)
Definition sample_run (cmd : list string) (fs : gmap string string) : Proc :=
  match cmd with
  | [_; path] =>
      match fs !! path with
      | Some src =>
          if String.eqb src "print('broken"
          then {| exit_after := Some 40; exit_code := 1; proc_stdout := "";
                  proc_stderr := "SyntaxError: unterminated string literal";
                  ignores_sigterm := false |}
          else if String.eqb src ("import time" +:+ newline +:+ "time.sleep(6)")
          then {| exit_after := Some 6000; exit_code := 0;
                  proc_stdout := "partial output"; proc_stderr := "";
                  ignores_sigterm := false |}
          else if String.eqb src slow_script
          then {| exit_after := Some 4900; exit_code := 1;
                  proc_stdout := "out" +:+ newline;
                  proc_stderr := "warn" +:+ newline;
                  ignores_sigterm := false |}
          else if String.eqb src stubborn_script
          then {| exit_after := Some 60000; exit_code := 0;
                  proc_stdout := ""; proc_stderr := "";
                  ignores_sigterm := true |}
          else if String.eqb src binary_script
          then {| exit_after := Some 20; exit_code := 0;
                  proc_stdout := String "255" EmptyString; proc_stderr := "";
                  ignores_sigterm := false |}
          else {| exit_after := Some 30; exit_code := 0;
                  proc_stdout := "hi" +:+ newline; proc_stderr := "";
                  ignores_sigterm := false |}
      | None => {| exit_after := Some 5; exit_code := 2; proc_stdout := "";
                   proc_stderr := "can't open file"; ignores_sigterm := false |}
      end
  | _ => {| exit_after := Some 5; exit_code := 2; proc_stdout := "";
            proc_stderr := "usage"; ignores_sigterm := false |}
  end.

Definition sample_env : Env :=
  {| cwd := "/app"; latency := fun _ => 1;
     dbFault := quiet; writeFault := quiet; unlinkFault := quiet;
     spawnFault := quiet; streamFault := quiet; queueFault := quiet;
     uuidv4 := fun n => "uuid-" +:+ pretty n; run := sample_run |}.

(** The store loses the connection on its second query. *)
Definition select_fails_env : Env :=
  {| cwd := "/app"; latency := fun _ => 1;
     dbFault := fun t => if Nat.eqb t 1 then Some "ECONNRESET" else None;
     writeFault := quiet; unlinkFault := quiet;
     spawnFault := quiet; streamFault := quiet; queueFault := quiet;
     uuidv4 := fun n => "uuid-" +:+ pretty n; run := sample_run |}.

(** The store loses the connection on every second query. *)
Definition reread_fails_env : Env :=
  {| cwd := "/app"; latency := fun _ => 1;
     dbFault := fun t => if Nat.odd t then Some "ECONNRESET" else None;
     writeFault := quiet; unlinkFault := quiet;
     spawnFault := quiet; streamFault := quiet; queueFault := quiet;
     uuidv4 := fun n => "uuid-" +:+ pretty n; run := sample_run |}.

(** The store is unreachable. *)
Definition store_down_env : Env :=
  {| cwd := "/app"; latency := fun _ => 1;
     dbFault := fun _ => Some "ECONNREFUSED";
     writeFault := quiet; unlinkFault := quiet;
     spawnFault := quiet; streamFault := quiet; queueFault := quiet;
     uuidv4 := fun n => "uuid-" +:+ pretty n; run := sample_run |}.

(** The queue is unreachable. *)
Definition queue_down_env : Env :=
  {| cwd := "/app"; latency := fun _ => 1;
     dbFault := quiet; writeFault := quiet; unlinkFault := quiet;
     spawnFault := quiet; streamFault := quiet;
     queueFault := fun _ => Some "ECONNREFUSED";
     uuidv4 := fun n => "uuid-" +:+ pretty n; run := sample_run |}.

(** The file system refuses every removal. *)
Definition unlink_fails_env : Env :=
  {| cwd := "/app"; latency := fun _ => 1;
     dbFault := quiet; writeFault := quiet; unlinkFault := fun _ => Some "EBUSY";
     spawnFault := quiet; streamFault := quiet; queueFault := quiet;
     uuidv4 := fun n => "uuid-" +:+ pretty n; run := sample_run |}.

Definition sample_session : CodeSession :=
  {| cs_id := "s1"; cs_language := "python"; cs_source_code := "print('hi')";
     cs_status := ACTIVE |}.

Definition queued_execution : Execution :=
  {| id := "e1"; session_id := "s1"; status := QUEUED;
     stdout := None; stderr := None; execution_time_ms := None |}.

(** One session, one queued execution, an empty temporary directory. *)
Definition sample_world : World :=
  {| sessions := {[ "s1" := sample_session ]};
     executions := {[ "e1" := queued_execution ]};
     files := ∅; queue := []; now := 1000; tick := 0; trace := [];
     alive := [] |}.

Definition empty_world : World :=
  {| sessions := ∅; executions := ∅; files := ∅; queue := [];
     now := 0; tick := 0; trace := []; alive := [] |}.

Definition hello_job : ExecutionJob :=
  {| executionId := "e1"; language := "python"; code := "print('hi')" |}.

Definition broken_job : ExecutionJob :=
  {| executionId := "e1"; language := "python"; code := "print('broken" |}.


Definition slow_job : ExecutionJob :=
  {| executionId := "e1"; language := "python"; code := slow_script |}.



Definition ruby_job : ExecutionJob :=
  {| executionId := "e1"; language := "ruby"; code := "puts 1" |}.

(** ** Laws of the monad and of the primitives *)

(** Unfolds the primitives one level, down to their case analysis on the
    oracles of the environment. *)
Ltac unfold_primitives :=
  cbv beta delta [Date_now TEMP_DIR uuid console_log console_error writeFile existsSync
                  unlink spawn kill race text queue_add resolveCommand ret throw
                  DB.getSession DB.insertSession DB.updateSessionRow
                  DB.getExecution DB.insertExecution DB.updateExecutionRow].

Lemma preserves_ret {A} (P : World -> Prop) (a : A) : preserves P (ret a).
Proof. intros env w HP. exact HP. Qed.

Lemma preserves_throw {A} (P : World -> Prop) (e : string) :
  preserves P (throw (A := A) e).
Proof. intros env w HP. exact HP. Qed.

Lemma preserves_bind {A B} (P : World -> Prop) (m : M A) (k : A -> M B) :
  preserves P m -> (forall a, preserves P (k a)) -> preserves P (bind m k).
Proof.
  intros Hm Hk env w HP. specialize (Hm env w HP).
  unfold exec, bind in *. destruct (m env w) as [[a|e] w1]; simpl in *.
  - apply (Hk a env w1 Hm).
  - exact Hm.
Qed.

Lemma preserves_try_catch {A} (P : World -> Prop) (m : M A) (h : string -> M A) :
  preserves P m -> (forall e, preserves P (h e)) -> preserves P (try_catch m h).
Proof.
  intros Hm Hh env w HP. specialize (Hm env w HP).
  unfold exec, try_catch in *. destruct (m env w) as [[a|e] w1]; simpl in *.
  - exact Hm.
  - apply (Hh e env w1 Hm).
Qed.

Lemma preserves_finally {A} (P : World -> Prop) (m : M A) (f : M unit) :
  preserves P m -> preserves P f -> preserves P (finally m f).
Proof.
  intros Hm Hf env w HP. specialize (Hm env w HP).
  unfold exec, finally in *. destruct (m env w) as [r w1]; simpl in *.
  specialize (Hf env w1 Hm). unfold exec in Hf.
  destruct (f env w1) as [[u|e] w2]; exact Hf.
Qed.


(** *** The decoder on well-formed text *)

Lemma decode_well_formed (n : nat) : forall s,
  (String.length s < n)%nat -> well_formed_utf8 s = true -> decode None s = s.
Proof.
  induction n as [|n IH]; intros s Hlen Hwf; [lia|].
  destruct s as [|c1 r1]; [reflexivity|].
  cbn [well_formed_utf8] in Hwf. cbn [decode]. cbv zeta. unfold lead.
  simpl in Hlen.
  destruct (N_of_ascii c1 <=? 127)%N eqn:H1.
  { f_equal. apply IH; [lia|exact Hwf]. }
  destruct r1 as [|c2 r2]; [discriminate|]. simpl in Hlen.
  unfold in_range at 1.
  destruct ((194 <=? N_of_ascii c1) && (N_of_ascii c1 <=? 223))%N eqn:H2.
  { apply andb_prop in Hwf as [Ht Hwf].
    cbn [decode bytes_needed lower_boundary upper_boundary bytes_seen].
    unfold tail_byte in Ht. unfold in_range. rewrite Ht.
    change (String c1 "" +:+ String c2 (decode None r2))
      with (String c1 (String c2 (decode None r2))).
    do 2 f_equal. apply IH; [lia|exact Hwf]. }
  destruct r2 as [|c3 r3]; [discriminate|]. simpl in Hlen.
  unfold in_range at 1.
  destruct ((224 <=? N_of_ascii c1) && (N_of_ascii c1 <=? 239))%N eqn:H3.
  { apply andb_prop in Hwf as [Hwf Hr]. apply andb_prop in Hwf as [Hs Ht].
    cbn [decode bytes_needed lower_boundary upper_boundary bytes_seen Nat.pred].
    unfold second_of_three in Hs. unfold tail_byte in Ht. unfold in_range.
    assert (Hs' : ((if (N_of_ascii c1 =? 224)%N then 160%N else 128%N)
                   <=? N_of_ascii c2)%N
                  && (N_of_ascii c2
                      <=? (if (N_of_ascii c1 =? 237)%N then 159%N else 191%N))%N
                  = true).
    { destruct (N_of_ascii c1 =? 224)%N eqn:E1;
        destruct (N_of_ascii c1 =? 237)%N eqn:E2; try exact Hs.
      apply N.eqb_eq in E1, E2. lia. }
    rewrite Hs'. rewrite Ht.
    change ((String c1 "" +:+ String c2 "") +:+ String c3 (decode None r3))
      with (String c1 (String c2 (String c3 (decode None r3)))).
    do 3 f_equal. apply IH; [lia|exact Hr]. }
  destruct r3 as [|c4 r4]; [discriminate|]. simpl in Hlen.
  apply andb_prop in Hwf as [Hwf Hr]. apply andb_prop in Hwf as [Hwf Ht4].
  apply andb_prop in Hwf as [Hwf Ht3]. apply andb_prop in Hwf as [H4 Hs].
  unfold in_range at 1. rewrite H4.
  cbn [decode bytes_needed lower_boundary upper_boundary bytes_seen Nat.pred].
  unfold second_of_four in Hs. unfold tail_byte in Ht3, Ht4. unfold in_range.
  assert (Hs' : ((if (N_of_ascii c1 =? 240)%N then 144%N else 128%N)
                 <=? N_of_ascii c2)%N
                && (N_of_ascii c2
                    <=? (if (N_of_ascii c1 =? 244)%N then 143%N else 191%N))%N
                = true).
  { destruct (N_of_ascii c1 =? 240)%N eqn:E1;
      destruct (N_of_ascii c1 =? 244)%N eqn:E2; try exact Hs.
    apply N.eqb_eq in E1, E2. lia. }
  rewrite Hs', Ht3, Ht4.
  change (((String c1 "" +:+ String c2 "") +:+ String c3 "")
          +:+ String c4 (decode None r4))
    with (String c1 (String c2 (String c3 (String c4 (decode None r4))))).
  do 4 f_equal. apply IH; [lia|exact Hr].
Qed.

Lemma strip_bom_none s : starts_with_bom s = false -> strip_bom s = s.
Proof.
  destruct s as [|c1 [|c2 [|c3 r]]]; try reflexivity.
  unfold starts_with_bom, strip_bom. intros H.
  destruct (String.eqb _ BYTE_ORDER_MARK) eqn:E; [|reflexivity].
  apply String.eqb_eq in E. injection E as -> -> ->. discriminate H.
Qed.

(** The decoder hands back a text as it was written. *)
Lemma utf8_decode_text s : utf8_text s -> utf8_decode s = s.
Proof.
  intros [Hwf Hbom]. unfold utf8_decode. rewrite (strip_bom_none _ Hbom).
  apply (decode_well_formed (S (String.length s))); [lia|exact Hwf].
Qed.

(** *** The signal *)

(** [kill] on a subprocess that is not running, as the one of a timer that
    fires after the exit has won the race, adds its event to the trace and
    changes nothing else. *)
Lemma kill_after_exit proc w :
  sp_pid proc ∉ alive w ->
  kill proc w = emit (EvKill (sp_cmd proc)) w.
Proof.
  intros Hgone. unfold kill, emit, set_alive. cbn [trace alive sessions executions
    files queue now tick]. f_equal.
  destruct (ignores_sigterm (sp_proc proc)); [reflexivity|].
  unfold reaped. induction (alive w) as [|q l IH]; [reflexivity|].
  apply not_elem_of_cons in Hgone as [Hq Hl].
  rewrite filter_cons_True by congruence. rewrite (IH Hl). reflexivity.
Qed.

(** Reduces the projections of the worlds built while a handler is run
    symbolically. *)
Ltac reduce_worlds :=
  cbn [fst snd tick now trace files executions sessions queue alive
       elapse emit advance set_files set_executions set_sessions set_queue
       set_alive kill sp_pid sp_cmd sp_proc].

(** *** Which primitives keep a stable property *)

Lemma appends_refl ok w : appends ok w w.
Proof. exists []. split; [symmetry; apply app_nil_r | reflexivity]. Qed.

Lemma appends_one ok w w' e :
  ok e = true -> trace w' = trace w ++ [e] -> appends ok w w'.
Proof. intros Hok Ht. exists [e]. split; [exact Ht | simpl; rewrite Hok; reflexivity]. Qed.

Lemma appends_trans ok w0 w1 w2 :
  appends ok w0 w1 -> appends ok w1 w2 -> appends ok w0 w2.
Proof.
  intros (evs1 & H1 & Hok1) (evs2 & H2 & Hok2). exists (evs1 ++ evs2). split.
  - rewrite H2, H1, app_assoc. reflexivity.
  - rewrite forallb_app, Hok1, Hok2. reflexivity.
Qed.

Section Frame.
Variable ok : Event -> bool.
Variable P : World -> Prop.
Hypothesis P_stable : stable ok P.

Lemma stable_quiet w w' :
  executions w' = executions w -> trace w' = trace w -> P w -> P w'.
Proof.
  intros He Ht. apply P_stable; [exact He|]. rewrite <- (app_nil_r (trace w)) in Ht.
  exists []. split; [exact Ht | reflexivity].
Qed.

Lemma stable_emit w w' e :
  ok e = true -> executions w' = executions w -> trace w' = trace w ++ [e] ->
  P w -> P w'.
Proof. intros Hok He Ht. apply P_stable; [exact He|]. eapply appends_one; eauto. Qed.

Ltac untouched :=
  let env := fresh "env" in let w := fresh "w" in let H := fresh "H" in
  intros env w H; unfold exec; unfold_primitives;
  repeat case_match; simpl;
  first [ exact H
        | eapply stable_quiet; [| |exact H]; reflexivity
        | eapply stable_emit; [| | |exact H]; [eassumption|reflexivity|reflexivity] ].

Lemma frame_Date_now : preserves P Date_now.
Proof. untouched. Qed.

Lemma frame_TEMP_DIR : preserves P TEMP_DIR.
Proof. untouched. Qed.

Lemma frame_uuid : preserves P uuid.
Proof. untouched. Qed.

Lemma frame_console_log msg :
  ok (EvLog msg) = true -> preserves P (console_log msg).
Proof. intros Hok. untouched. Qed.

Lemma frame_console_error msg :
  ok (EvError msg) = true -> preserves P (console_error msg).
Proof. intros Hok. untouched. Qed.

Lemma frame_writeFile path content :
  ok (EvWriteFile path content) = true -> preserves P (writeFile path content).
Proof. intros Hok. untouched. Qed.

Lemma frame_existsSync path : preserves P (existsSync path).
Proof. untouched. Qed.

Lemma frame_unlink path :
  ok (EvUnlink path) = true -> preserves P (unlink path).
Proof. intros Hok. untouched. Qed.

Lemma frame_spawn cmd :
  ok (EvSpawn cmd) = true -> preserves P (spawn cmd).
Proof. intros Hok. untouched. Qed.

Lemma frame_race proc :
  ok (EvKill (sp_cmd proc)) = true -> preserves P (race proc).
Proof. intros Hok. untouched. Qed.

Lemma frame_text s : preserves P (text s).
Proof. untouched. Qed.

Lemma frame_queue_add name data opts : preserves P (queue_add name data opts).
Proof. untouched. Qed.

Lemma frame_getSession sid : preserves P (DB.getSession sid).
Proof. untouched. Qed.

Lemma frame_insertSession sid lang src : preserves P (DB.insertSession sid lang src).
Proof. untouched. Qed.

Lemma frame_updateSessionRow sid src : preserves P (DB.updateSessionRow sid src).
Proof. untouched. Qed.

Lemma frame_getExecution eid : preserves P (DB.getExecution eid).
Proof. untouched. Qed.

Lemma frame_resolveCommand lang path : preserves P (resolveCommand lang path).
Proof. untouched. Qed.

Lemma frame_cleanup path :
  ok (EvUnlink path) = true ->
  ok (EvError ("Failed to cleanup file " +:+ path)) = true ->
  preserves P (cleanup path).
Proof.
  intros Hok1 Hok2. apply preserves_try_catch.
  - apply preserves_bind; [apply frame_existsSync|].
    intros [|]; [apply frame_unlink, Hok1 | apply preserves_ret].
  - intros _. apply frame_console_error, Hok2.
Qed.

Lemma frame_onError e :
  ok (EvError e) = true -> preserves P (onError e).
Proof.
  intros Hok.
  apply preserves_bind; [apply frame_console_error, Hok | intros; apply preserves_ret].
Qed.
End Frame.

Lemma unset_stable : stable (fun _ => true) unset_while_pending.
Proof. intros w w' He _. unfold unset_while_pending. rewrite He. auto. Qed.

Lemma appends_stable ok w0 : stable ok (appends ok w0).
Proof. intros w w' _ Hww' Hw. eapply appends_trans; eauto. Qed.

Create HintDb frame.
#[local] Hint Resolve preserves_ret preserves_throw preserves_bind
  preserves_try_catch preserves_finally
  frame_Date_now frame_TEMP_DIR frame_uuid frame_console_log frame_console_error
  frame_writeFile frame_existsSync frame_unlink frame_spawn frame_race frame_text
  frame_queue_add frame_getSession frame_insertSession frame_updateSessionRow
  frame_getExecution frame_resolveCommand frame_cleanup frame_onError
  unset_stable appends_stable : frame.
#[local] Hint Extern 1 (_ = true) => reflexivity : frame.

(** Settles [preserves P m] for a handler [m] built from primitives that
    [P] is stable under, given the proof [St] of that stability; what it
    cannot settle (the writes to the executions table) is looked up among
    the hypotheses. *)
Ltac frame_with St :=
  repeat first
    [ solve [auto]
    | apply (frame_cleanup _ _ St); reflexivity
    | apply preserves_ret | apply preserves_throw
    | apply preserves_bind; [|intros ?]
    | apply preserves_try_catch; [|intros ?]
    | apply preserves_finally
    | apply frame_Date_now | apply frame_TEMP_DIR | apply frame_uuid
    | apply frame_existsSync | apply frame_resolveCommand
    | apply (frame_console_log _ _ St); reflexivity
    | apply (frame_console_error _ _ St); reflexivity
    | apply (frame_writeFile _ _ St); reflexivity
    | apply (frame_unlink _ _ St); reflexivity
    | apply (frame_spawn _ _ St); reflexivity
    | apply (frame_race _ _ St); reflexivity
    | apply (frame_text _ _ St)
    | apply (frame_queue_add _ _ St)
    | apply (frame_getSession _ _ St)
    | apply (frame_getExecution _ _ St) ].

(** *** The result columns stay unset on pending rows *)

Lemma unset_insertExecution eid sid :
  preserves unset_while_pending (DB.insertExecution eid sid).
Proof.
  intros env w H. unfold exec, DB.insertExecution.
  repeat case_match; simpl; try exact H.
  intros eid' e' Hlook Hst. simpl in Hlook.
  rewrite lookup_insert in Hlook. case_decide as Heq.
  - injection Hlook as <-. simpl. auto.
  - exact (H eid' e' Hlook Hst).
Qed.

Lemma unset_updateExecutionRow eid st out err ms :
  (is_terminal st = false -> out = None /\ err = None /\ ms = None) ->
  preserves unset_while_pending (DB.updateExecutionRow eid st out err ms).
Proof.
  intros Hargs env w H. unfold exec, DB.updateExecutionRow.
  case_match; simpl; try exact H.
  intros eid' e' Hlook Hst. simpl in Hlook.
  rewrite lookup_alter in Hlook. case_decide as Heq.
  - subst eid'.
    destruct (executions w !! eid) as [e0|]; simpl in Hlook; [|discriminate].
    injection Hlook as <-. simpl in *. apply Hargs.
    destruct Hst as [-> | ->]; reflexivity.
  - exact (H eid' e' Hlook Hst).
Qed.

Lemma unset_updateExecutionStatus eid st out err ms :
  (is_terminal st = false -> out = None /\ err = None /\ ms = None) ->
  preserves unset_while_pending (DB.updateExecutionStatus eid st out err ms).
Proof.
  intros Hargs. unfold DB.updateExecutionStatus.
  apply preserves_bind; [apply unset_updateExecutionRow, Hargs | eauto with frame].
Qed.

Lemma unset_attempt job startTime path :
  preserves unset_while_pending (attempt job startTime path).
Proof.
  unfold attempt.
  assert (forall out err ms, preserves unset_while_pending
            (DB.updateExecutionStatus (executionId job) COMPLETED out err ms))
    by (intros; apply unset_updateExecutionStatus; discriminate).
  frame_with unset_stable.
Qed.

Lemma unset_recover job startTime error :
  preserves unset_while_pending (recover job startTime error).
Proof.
  unfold recover.
  assert (forall st out err ms, is_terminal st = true -> preserves unset_while_pending
            (DB.updateExecutionStatus (executionId job) st out err ms))
    as Hwrite by (intros ? ? ? ? Hst; apply unset_updateExecutionStatus; congruence).
  apply preserves_bind; [eauto with frame | intros _].
  apply preserves_bind; [eauto with frame | intros finish].
  apply preserves_bind; [|eauto with frame].
  apply Hwrite. destruct (String.eqb _ _); reflexivity.
Qed.

Lemma unset_executionWorker job :
  preserves unset_while_pending (executionWorker job).
Proof.
  unfold executionWorker, guarded.
  assert (preserves unset_while_pending
            (DB.updateExecutionStatus (executionId job) RUNNING None None None))
    by (apply unset_updateExecutionStatus; auto).
  pose proof (unset_attempt job). pose proof (unset_recover job).
  frame_with unset_stable.
Qed.

Lemma unset_createExecution eid sid :
  preserves unset_while_pending (DB.createExecution eid sid).
Proof.
  unfold DB.createExecution.
  apply preserves_bind; [apply unset_insertExecution | eauto with frame].
Qed.

Lemma unset_addExecutionJob eid lang src :
  preserves unset_while_pending (addExecutionJob eid lang src).
Proof. unfold addExecutionJob. eauto with frame. Qed.

Lemma unset_perform op env w :
  unset_while_pending w -> unset_while_pending (perform op env w).
Proof.
  destruct op; simpl.
  - apply preserves_bind; eauto with frame.
  - apply preserves_bind; eauto with frame.
  - apply unset_createExecution.
  - apply unset_addExecutionJob.
  - apply preserves_try_catch; [|eauto with frame].
    apply preserves_bind; [eauto with frame | intros [s|]; [|eauto with frame]].
    pose proof unset_createExecution. pose proof unset_addExecutionJob.
    eauto 20 with frame.
  - apply preserves_try_catch; [|eauto with frame].
    apply preserves_bind; [eauto with frame | intros [e|]; [|eauto with frame]].
    destruct (is_terminal _); eauto with frame.
  - apply unset_executionWorker.
Qed.

(** *** Pre- and postconditions *)

Lemma triple_bind_frame {A B} env (P : World -> Prop) (m : M A) (k : A -> M B)
    (Q : B -> World -> Prop) :
  preserves P m ->
  (forall a, triple env P (k a) Q (fun _ => P)) ->
  triple env P (bind m k) Q (fun _ => P).
Proof.
  intros Hm Hk w Hw. specialize (Hm env w Hw). unfold exec, bind in *.
  destruct (m env w) as [[a|e] w1]; simpl in *.
  - apply (Hk a w1 Hm).
  - exact Hm.
Qed.

Lemma triple_try_catch {A} env (P : World -> Prop) (m : M A) (h : string -> M A)
    (Q : A -> World -> Prop) (Mid R : string -> World -> Prop) :
  triple env P m Q Mid ->
  (forall e, triple env (Mid e) (h e) Q R) ->
  triple env P (try_catch m h) Q R.
Proof.
  intros Hm Hh w Hw. specialize (Hm w Hw). unfold try_catch.
  destruct (m env w) as [[a|e] w1]; [exact Hm | apply (Hh e w1 Hm)].
Qed.

Lemma triple_conseq {A} env (P : World -> Prop) (m : M A)
    (Q Q' : A -> World -> Prop) (R R' : string -> World -> Prop) :
  triple env P m Q R ->
  (forall a w, Q a w -> Q' a w) -> (forall e w, R e w -> R' e w) ->
  triple env P m Q' R'.
Proof.
  intros Hm HQ HR w Hw. specialize (Hm w Hw).
  destruct (m env w) as [[a|e] w1]; auto.
Qed.

Lemma updateExecutionStatus_up env eid st out err ms w :
  dbFault env (tick w) = None -> dbFault env (S (tick w)) = None ->
  DB.updateExecutionStatus eid st out err ms env w =
    (Ok (alter (DB.overwrite st out err ms) eid (executions w) !! eid),
     elapse env (emit (EvUpdate eid st out err ms)
                   (set_executions (alter (DB.overwrite st out err ms) eid)
                      (elapse env w)))).
Proof.
  intros H0 H1.
  unfold DB.updateExecutionStatus, DB.updateExecutionRow, DB.getExecution, bind.
  rewrite H0. reduce_worlds. rewrite H1. reflexivity.
Qed.

Lemma status_writes_app eid evs1 evs2 :
  status_writes eid (evs1 ++ evs2) = status_writes eid evs1 ++ status_writes eid evs2.
Proof. apply omap_app. Qed.

Lemma status_writes_others eid evs :
  forallb (fun ev => negb (is_update_of eid ev)) evs = true ->
  status_writes eid evs = [].
Proof.
  induction evs as [|ev evs IH]; [reflexivity|]. simpl.
  intros [Hev Hevs]%andb_true_iff. unfold status_writes in *. simpl.
  rewrite (IH Hevs). destruct ev; simpl in *; try reflexivity.
  destruct (String.eqb eid0 eid); [discriminate | reflexivity].
Qed.

Lemma events_since_app w w' evs :
  trace w' = trace w ++ evs -> events_since w w' = evs.
Proof. intros H. unfold events_since. rewrite H. apply drop_app_length. Qed.

(** *** The cleanup step *)

Lemma cleanup_returns env path w : outcome (cleanup path) env w = Ok tt.
Proof.
  unfold outcome, cleanup, try_catch, bind, existsSync, unlink, console_error, ret.
  repeat case_match; simplify_eq; reflexivity.
Qed.

Lemma cleanup_executions env path w :
  executions (exec (cleanup path) env w) = executions w.
Proof.
  unfold exec, cleanup, try_catch, bind, existsSync, unlink, console_error, ret.
  repeat case_match; simplify_eq; reflexivity.
Qed.

(** When the removal itself does not fail, the file is gone afterwards. *)
Lemma cleanup_removes env path w :
  unlinkFault env (tick w) = None ->
  files (exec (cleanup path) env w) !! path = None.
Proof.
  intros Hun.
  unfold exec, cleanup, try_catch, bind, existsSync, unlink, console_error, ret.
  cbv beta iota zeta. case_bool_decide as Hthere; [rewrite Hun|].
  - destruct Hthere as [c Hc]. rewrite Hc. simpl. apply lookup_delete_eq.
  - simpl. destruct (files w !! path) eqn:Hc; [|reflexivity].
    exfalso. apply Hthere. eauto.
Qed.

(** When the removal fails, the file stays and the failure is logged. *)
Lemma cleanup_failure env path w e :
  unlinkFault env (tick w) = Some e ->
  is_Some (files w !! path) ->
  cleanup path env w =
    (Ok tt, emit (EvError ("Failed to cleanup file " +:+ path)) (elapse env w)).
Proof.
  intros Hun Hthere.
  unfold cleanup, try_catch, bind, existsSync, unlink, console_error, ret.
  cbv beta iota zeta. rewrite bool_decide_eq_true_2 by exact Hthere.
  rewrite Hun. reflexivity.
Qed.

(** *** The guarded block resolves every execution *)

Section Protocol.
Variable env : Env.
Hypothesis Hdb : store_up env.
Variable job : ExecutionJob.
Variable ok : Event -> bool.
Variable Pending : World -> Prop.
Variable Resolved : ExecutionStatus -> World -> Prop.
Hypothesis Pending_stable : stable ok Pending.
Hypothesis Resolved_stable : forall st, stable ok (Resolved st).
Hypothesis ok_other :
  forall ev, match ev with EvUpdate _ _ _ _ _ => True | _ => ok ev = true end.
Hypothesis write_terminal :
  forall st out err ms w,
    is_terminal st = true -> Pending w ->
    Resolved st (exec (DB.updateExecutionStatus (executionId job) st out err ms) env w).

#[local] Hint Resolve Pending_stable Resolved_stable : frame.
#[local] Hint Extern 1 (ok ?e = true) => exact (ok_other e) : frame.

Lemma write_terminal_triple st out err ms :
  is_terminal st = true ->
  triple env Pending
    (let* _ := DB.updateExecutionStatus (executionId job) st out err ms in ret tt)
    (fun _ => Resolved st) (fun _ => Pending).
Proof.
  intros Hst w Hw. pose proof (write_terminal st out err ms w Hst Hw) as H.
  unfold exec, bind, ret in *.
  rewrite updateExecutionStatus_up in * by apply Hdb. exact H.
Qed.

Lemma attempt_triple startTime path :
  triple env Pending (attempt job startTime path)
    (fun _ => Resolved COMPLETED) (fun _ => Pending).
Proof.
  unfold attempt.
  do 8 (apply triple_bind_frame; [eauto with frame | intros ?]).
  apply write_terminal_triple. reflexivity.
Qed.

Lemma recover_triple startTime error :
  triple env Pending (recover job startTime error)
    (fun _ w => exists st, is_terminal st = true /\ Resolved st w)
    (fun _ _ => False).
Proof.
  intros w Hw.
  set (msg := "[Worker] Failed " +:+ executionId job +:+ ": " +:+ error).
  set (st := if String.eqb error TIMEOUT_MESSAGE then TIMEOUT else FAILED).
  assert (Hst : is_terminal st = true)
    by (subst st; destruct (String.eqb _ _); reflexivity).
  pose proof (frame_console_error ok Pending Pending_stable msg
                (ok_other (EvError msg)) env w Hw) as Hw1.
  change (Pending (emit (EvError msg) w)) in Hw1.
  pose proof (write_terminal st None (Some error)
                (Some (now w - startTime)) _ Hst Hw1) as H.
  unfold recover, bind, console_error, Date_now, ret. fold msg. fold st.
  unfold exec in H. cbv beta iota zeta. reduce_worlds.
  rewrite updateExecutionStatus_up in * by apply Hdb.
  exists st. auto.
Qed.

Lemma resolves_triple startTime path :
  triple env Pending
    (try_catch (attempt job startTime path) (recover job startTime))
    (fun _ w => exists st, is_terminal st = true /\ Resolved st w)
    (fun _ _ => False).
Proof.
  eapply triple_try_catch; [|intros e; apply recover_triple].
  eapply triple_conseq; [apply attempt_triple | | intros e w H; exact H].
  intros ? w H. exists COMPLETED. auto.
Qed.

(** Whatever the file system and the subprocess do, the guarded block
    returns normally and has written exactly one terminal status. *)
Lemma guarded_resolves startTime path w :
  Pending w ->
  outcome (guarded job startTime path) env w = Ok tt
  /\ exists st, is_terminal st = true
                /\ Resolved st (exec (guarded job startTime path) env w).
Proof.
  intros Hw. pose proof (resolves_triple startTime path w Hw) as H.
  unfold guarded, outcome, exec, finally.
  destruct (try_catch _ _ env w) as [[[]|e] w1]; [|contradiction].
  destruct H as (st & Hst & HR).
  pose proof (cleanup_returns env path w1) as Hc.
  assert (Hf : Resolved st (exec (cleanup path) env w1))
    by (revert HR; apply (frame_cleanup ok); eauto with frame).
  unfold outcome, exec in *.
  destruct (cleanup path env w1) as [[[]|e] w2]; simpl in *; [|discriminate].
  eauto.
Qed.
End Protocol.

(** *** The handler as a whole *)

(** Once RUNNING is persisted the handler is its guarded block. *)
Lemma executionWorker_running env job w :
  dbFault env (tick w) = None -> dbFault env (S (tick w)) = None ->
  executionWorker job env w =
    guarded job (now w) (filePath env (executionId job) (language job)) env
      (after_running env job w).
Proof.
  intros H0 H1. unfold executionWorker, bind at 1 2 3 4.
  unfold Date_now, console_log, TEMP_DIR. reduce_worlds.
  rewrite updateExecutionStatus_up by assumption. reflexivity.
Qed.

(** A failure to persist RUNNING leaves the handler at once. *)
Lemma executionWorker_running_fails env job w e :
  dbFault env (tick w) = Some e \/
  (dbFault env (tick w) = None /\ dbFault env (S (tick w)) = Some e) ->
  outcome (executionWorker job) env w = Throw e
  /\ files (exec (executionWorker job) env w) = files w
  /\ status_writes (executionId job)
       (events_since w (exec (executionWorker job) env w))
     = match dbFault env (tick w) with Some _ => [] | None => [RUNNING] end.
Proof.
  intros H. unfold outcome, exec.
  destruct (executionWorker job env w) as [r W] eqn:Hrun. revert Hrun.
  unfold executionWorker, bind at 1 2 3.
  unfold Date_now, console_log, DB.updateExecutionStatus, bind,
    DB.updateExecutionRow, DB.getExecution.
  reduce_worlds.
  destruct H as [H0 | [H0 H1]]; rewrite H0; cbv beta iota zeta; reduce_worlds;
    rewrite ?H1; intros [= <- <-]; cbn [fst snd]; reduce_worlds.
  - split; [reflexivity|]. split; [reflexivity|].
    erewrite events_since_app by (reduce_worlds; rewrite <- ?app_assoc; reflexivity).
    reflexivity.
  - split; [reflexivity|]. split; [reflexivity|].
    erewrite events_since_app by (reduce_worlds; rewrite <- ?app_assoc; reflexivity).
    simpl. rewrite String.eqb_refl. reflexivity.
Qed.

Lemma is_Some_stable eid :
  stable (fun _ => true) (fun w => is_Some (executions w !! eid)).
Proof. intros w w' He _. rewrite He. auto. Qed.

Lemma has_status_stable eid st : stable (fun _ => true) (has_status eid st).
Proof. intros w w' He _. unfold has_status. rewrite He. auto. Qed.

Lemma has_status_written env eid st out err ms w :
  store_up env ->
  is_Some (executions w !! eid) ->
  has_status eid st (exec (DB.updateExecutionStatus eid st out err ms) env w).
Proof.
  intros Hdb [e0 He0]. unfold exec, has_status.
  rewrite updateExecutionStatus_up by apply Hdb. reduce_worlds.
  rewrite lookup_alter_eq, He0. simpl. eauto.
Qed.

Lemma wrote_stable eid w0 l :
  stable (fun ev => negb (is_update_of eid ev)) (wrote eid w0 l).
Proof.
  intros w w' _ (evs' & Ht' & Hok) (evs & Ht & Hl).
  exists (evs ++ evs'). split.
  - rewrite Ht', Ht, app_assoc. reflexivity.
  - rewrite status_writes_app, Hl, (status_writes_others _ _ Hok), app_nil_r.
    reflexivity.
Qed.

Lemma wrote_written env eid w0 l st out err ms w :
  store_up env ->
  wrote eid w0 l w ->
  wrote eid w0 (l ++ [st]) (exec (DB.updateExecutionStatus eid st out err ms) env w).
Proof.
  intros Hdb (evs & Ht & Hl). unfold exec, wrote.
  rewrite updateExecutionStatus_up by apply Hdb. reduce_worlds.
  exists (evs ++ [EvUpdate eid st out err ms]). split.
  - rewrite Ht, app_assoc. reflexivity.
  - rewrite status_writes_app, Hl. simpl. rewrite String.eqb_refl. reflexivity.
Qed.

Lemma not_update_other eid ev :
  match ev with
  | EvUpdate _ _ _ _ _ => True
  | _ => negb (is_update_of eid ev) = true
  end.
Proof. destruct ev; simpl; auto. Qed.

Lemma always_other (ev : Event) :
  match ev with
  | EvUpdate _ _ _ _ _ => True
  | _ => (fun _ : Event => true) ev = true
  end.
Proof. destruct ev; auto. Qed.

Lemma recover_up env job startTime error w :
  store_up env ->
  recover job startTime error env w =
    (Ok tt,
     elapse env
       (emit (EvUpdate (executionId job)
                (if String.eqb error TIMEOUT_MESSAGE then TIMEOUT else FAILED)
                None (Some error) (Some (now w - startTime)))
          (set_executions
             (alter (DB.overwrite
                       (if String.eqb error TIMEOUT_MESSAGE then TIMEOUT else FAILED)
                       None (Some error) (Some (now w - startTime)))
                    (executionId job))
             (elapse env
                (emit (EvError ("[Worker] Failed " +:+ executionId job +:+ ": "
                                +:+ error)) w))))).
Proof.
  intros Hdb. unfold recover, bind, console_error, Date_now, ret. reduce_worlds.
  rewrite updateExecutionStatus_up by apply Hdb. reflexivity.
Qed.

(** What the guarded block leaves in the table when the [try] block threw. *)
Lemma guarded_caught env job startTime path w error w1 :
  store_up env ->
  attempt job startTime path env w = (Throw error, w1) ->
  executions (exec (guarded job startTime path) env w)
  = alter (DB.overwrite
             (if String.eqb error TIMEOUT_MESSAGE then TIMEOUT else FAILED)
             None (Some error) (Some (now w1 - startTime)))
          (executionId job) (executions w1).
Proof.
  intros Hdb Ha. unfold exec, guarded, finally, try_catch. rewrite Ha.
  rewrite recover_up by exact Hdb.
  match goal with |- context [cleanup path env ?w2] =>
    pose proof (cleanup_executions env path w2) as Hc;
    pose proof (cleanup_returns env path w2) as Hr;
    unfold exec, outcome in Hc, Hr;
    destruct (cleanup path env w2) as [[[]|e] w3]; simpl in *; [|discriminate]
  end.
  rewrite Hc. reflexivity.
Qed.

(** C1 (as amended).  When the store answers its queries, every exception
    raised inside the guarded block (writing the source file, resolving the
    interpreter, spawning the subprocess, the race against the timer,
    reading the streams) is caught: the handler returns normally and the row
    of the execution ends in a terminal status; the status is TIMEOUT when
    the message of the exception is the timeout message and FAILED
    otherwise, with that message as stderr and no stdout.  The RUNNING write
    comes before the guarded block: when it throws, the exception leaves
    the handler and no terminal status is written. *)
Theorem exceptions_resolved_when_store_up (env : Env) (job : ExecutionJob) (w : World) :
  (store_up env ->
   is_Some (executions w !! executionId job) ->
   outcome (executionWorker job) env w = Ok tt
   /\ (exists st, is_terminal st = true
                  /\ has_status (executionId job) st (exec (executionWorker job) env w))
   /\ (forall error w1,
         attempt job (now w) (filePath env (executionId job) (language job)) env
           (after_running env job w) = (Throw error, w1) ->
         exists row,
           executions (exec (executionWorker job) env w) !! executionId job = Some row
           /\ status row = (if String.eqb error TIMEOUT_MESSAGE then TIMEOUT else FAILED)
           /\ stdout row = None /\ stderr row = Some error))
  /\ (forall e,
        dbFault env (tick w) = Some e \/
        (dbFault env (tick w) = None /\ dbFault env (S (tick w)) = Some e) ->
        outcome (executionWorker job) env w = Throw e
        /\ status_writes (executionId job)
             (events_since w (exec (executionWorker job) env w))
           = match dbFault env (tick w) with Some _ => [] | None => [RUNNING] end).
Proof.
  split; [|intros e He; split; apply (executionWorker_running_fails env job w e He)].
  intros Hdb Hrow. unfold outcome, exec.
  rewrite executionWorker_running by apply Hdb.
  assert (Hpending : is_Some (executions (after_running env job w) !! executionId job)).
  { unfold after_running. reduce_worlds. rewrite lookup_alter_eq.
    destruct Hrow as [e0 ->]. simpl. eauto. }
  pose proof (guarded_resolves env Hdb job (fun _ => true)
           (fun w => is_Some (executions w !! executionId job))
           (has_status (executionId job))
           (is_Some_stable _) (fun st => has_status_stable _ st)) as Hg.
  destruct (Hg always_other
               (fun st out err ms w1 _ Hw1 =>
                  has_status_written env _ st out err ms w1 Hdb Hw1)
               (now w) (filePath env (executionId job) (language job))
               (after_running env job w) Hpending) as [Hout Hterm].
  split; [exact Hout|]. split; [exact Hterm|].
  intros error w1 Ha.
  pose proof (attempt_triple env Hdb job (fun _ => true)
                (fun w => is_Some (executions w !! executionId job))
                (has_status (executionId job))
                (is_Some_stable _)
                always_other
                (fun st out err ms w1 _ Hw1 =>
                   has_status_written env _ st out err ms w1 Hdb Hw1)
                (now w) (filePath env (executionId job) (language job))
                (after_running env job w) Hpending) as Ht.
  rewrite Ha in Ht. destruct Ht as [row1 Hrow1].
  pose proof (guarded_caught env job _ _ _ error w1 Hdb Ha) as Hex.
  unfold exec in Hex. rewrite Hex, lookup_alter_eq, Hrow1. simpl.
  eexists. split; [reflexivity|]. simpl. auto.
Qed.

(** C6 (as amended).  Within one run of the handler in which the store
    answers its queries, the statuses written to the row of the execution
    are RUNNING followed by exactly one terminal status. *)
Theorem one_run_writes_running_then_terminal (env : Env) (job : ExecutionJob) (w : World) :
  store_up env ->
  exists st, is_terminal st = true
    /\ status_writes (executionId job)
         (events_since w (exec (executionWorker job) env w)) = [RUNNING; st]
    /\ never_leaves_terminal [RUNNING; st] = true.
Proof.
  intros Hdb. unfold exec.
  rewrite executionWorker_running by apply Hdb.
  destruct (guarded_resolves env Hdb job
              (fun ev => negb (is_update_of (executionId job) ev))
              (wrote (executionId job) w [RUNNING])
              (fun st => wrote (executionId job) w [RUNNING; st])
              (wrote_stable _ _ _) (fun st => wrote_stable _ _ _)
              (not_update_other _)
              (fun st out err ms w1 _ Hw1 =>
                 wrote_written env _ w [RUNNING] st out err ms w1 Hdb Hw1)
              (now w) (filePath env (executionId job) (language job))
              (after_running env job w))
    as (_ & st & Hst & evs & Ht & Hl).
  - unfold after_running, wrote. reduce_worlds.
    eexists. split; [rewrite <- app_assoc; reflexivity|].
    simpl. rewrite String.eqb_refl. reflexivity.
  - exists st. split; [exact Hst|]. split; [|reflexivity].
    unfold exec in Ht. rewrite (events_since_app _ _ _ Ht). exact Hl.
Qed.

(** *** The paths through the guarded block *)

Lemma guarded_run env job startTime path w r w1 :
  try_catch (attempt job startTime path) (recover job startTime) env w = (r, w1) ->
  guarded job startTime path env w = (r, exec (cleanup path) env w1).
Proof.
  intros H. unfold guarded, finally. rewrite H.
  pose proof (cleanup_returns env path w1) as Hr. unfold outcome, exec in *.
  destruct (cleanup path env w1) as [[[]|e] w2]; simpl in *; [reflexivity|discriminate].
Qed.

Lemma cleanup_trace env path w :
  exists evs,
    trace (exec (cleanup path) env w) = trace w ++ evs
    /\ (evs = [] \/ evs = [EvUnlink path]
        \/ evs = [EvError ("Failed to cleanup file " +:+ path)]).
Proof.
  unfold exec, cleanup, try_catch, bind, existsSync, unlink, console_error, ret.
  cbv beta iota zeta.
  repeat case_match; simplify_eq; reduce_worlds; eexists; split;
    try reflexivity; try (symmetry; apply app_nil_r); auto.
Qed.

Lemma resolveCommand_unsupported language path :
  supported language = false ->
  resolveCommand language path = throw ("Unsupported language: " +:+ language).
Proof.
  unfold supported, resolveCommand.
  destruct (String.eqb language "python"); [discriminate|]. simpl.
  intros ->. reflexivity.
Qed.

Lemma resolveCommand_supported language path :
  supported language = true ->
  resolveCommand language path = ret (commandLine language path).
Proof.
  unfold supported, resolveCommand, commandLine, interpreter.
  destruct (String.eqb language "python"); [reflexivity|]. simpl.
  intros ->. reflexivity.
Qed.

(** The tag is rejected after the source file has been written. *)
Lemma attempt_unsupported env job startTime path w :
  writeFault env (tick w) = None ->
  supported (language job) = false ->
  attempt job startTime path env w =
    (Throw ("Unsupported language: " +:+ language job),
     emit (EvWriteFile path (code job))
       (set_files (insert path (code job)) (elapse env w))).
Proof.
  intros Hwr Hsup. unfold attempt. rewrite (resolveCommand_unsupported _ _ Hsup).
  unfold bind, writeFile, throw. rewrite Hwr. reflexivity.
Qed.

Lemma attempt_timeout env job startTime path w :
  writeFault env (tick w) = None ->
  spawnFault env (S (tick w)) = None ->
  supported (language job) = true ->
  exits_first (run env (commandLine (language job) path)
                 (<[path := code job]> (files w))) = false ->
  attempt job startTime path env w =
    (Throw TIMEOUT_MESSAGE,
     kill (handle env job path w)
       (advance EXECUTION_TIMEOUT_MS (elapse env (after_spawn env job path w)))).
Proof.
  intros Hwr Hsp Hsup Hexit. unfold attempt.
  rewrite (resolveCommand_supported _ _ Hsup).
  unfold bind, writeFile, ret, spawn, race. rewrite Hwr. reduce_worlds.
  rewrite Hsp. reduce_worlds. unfold exits_first in Hexit.
  destruct (exit_after _) as [t|]; [rewrite Hexit|]; reflexivity.
Qed.

Lemma attempt_completed env job startTime path w :
  calm env ->
  supported (language job) = true ->
  exits_first (run env (commandLine (language job) path)
                 (<[path := code job]> (files w))) = true ->
  exists t w1 w2,
    let p := run env (commandLine (language job) path)
               (<[path := code job]> (files w)) in
    attempt job startTime path env w = (Ok tt, w2)
    /\ w2 = elapse env
              (emit (EvUpdate (executionId job) COMPLETED
                       (Some (utf8_decode (proc_stdout p)))
                       (or_null (utf8_decode (proc_stderr p)))
                       (Some (now w1 - startTime)))
                 (set_executions
                    (alter (DB.overwrite COMPLETED
                              (Some (utf8_decode (proc_stdout p)))
                              (or_null (utf8_decode (proc_stderr p)))
                              (Some (now w1 - startTime)))
                           (executionId job))
                    (elapse env
                       (emit (EvLog ("[Worker] Finished " +:+ executionId job
                                     +:+ " in " +:+ pretty (now w1 - startTime)
                                     +:+ "ms")) w1))))
    /\ w1 = elapse env (elapse env
              (set_alive (reaped (S (tick w)))
                 (advance t (elapse env (after_spawn env job path w))))).
Proof.
  intros Hcalm Hsup Hexit. unfold exits_first in Hexit.
  destruct (exit_after _) as [t|] eqn:Ht; [|discriminate].
  exists t. eexists. eexists. cbv zeta. split; [|split; reflexivity].
  unfold attempt. rewrite (resolveCommand_supported _ _ Hsup).
  unfold bind, writeFile, ret, spawn, race, text, Date_now, console_log.
  rewrite (proj1 (proj2 (Hcalm _))). reduce_worlds.
  rewrite (proj1 (proj2 (proj2 (Hcalm _)))). reduce_worlds.
  rewrite Ht, Hexit. reduce_worlds.
  rewrite !(proj2 (proj2 (proj2 (Hcalm _)))). reduce_worlds.
  rewrite updateExecutionStatus_up by apply Hcalm. reflexivity.
Qed.

Lemma guarded_caught_run env job startTime path w error w1 :
  store_up env ->
  attempt job startTime path env w = (Throw error, w1) ->
  guarded job startTime path env w =
    (Ok tt, exec (cleanup path) env (snd (recover job startTime error env w1))).
Proof.
  intros Hdb Ha. apply guarded_run. unfold try_catch. rewrite Ha.
  rewrite recover_up by exact Hdb. reflexivity.
Qed.

Lemma guarded_completed_run env job startTime path w w2 :
  attempt job startTime path env w = (Ok tt, w2) ->
  guarded job startTime path env w = (Ok tt, exec (cleanup path) env w2).
Proof. intros Ha. apply guarded_run. unfold try_catch. rewrite Ha. reflexivity. Qed.

(** Brings the trace of the final world into the shape
    [trace w ++ events] and computes a projection of the events. *)
Ltac trace_of_run Hc :=
  erewrite events_since_app
    by (rewrite Hc; unfold after_running, after_spawn; reduce_worlds;
        rewrite <- ?app_assoc; reflexivity).


Lemma exits_first_before p t :
  exit_after p = Some t -> t < 5000 -> exits_first p = true.
Proof. intros H Ht. unfold exits_first. rewrite H. apply Z.ltb_lt. exact Ht. Qed.

Lemma exits_first_after p :
  exit_after p = None \/ (exists t, exit_after p = Some t /\ 5000 < t) ->
  exits_first p = false.
Proof.
  unfold exits_first. intros [-> | (t & -> & Ht)]; [reflexivity|].
  apply Z.ltb_ge. unfold EXECUTION_TIMEOUT_MS. lia.
Qed.




(** *** An unsupported language *)

Lemma appends_updateExecutionStatus ok w0 eid st out err ms :
  ok (EvUpdate eid st out err ms) = true ->
  preserves (appends ok w0) (DB.updateExecutionStatus eid st out err ms).
Proof.
  intros Hok. unfold DB.updateExecutionStatus.
  apply preserves_bind; [|intros _; apply (frame_getExecution _ _ (appends_stable ok w0))].
  intros env w H. unfold exec, DB.updateExecutionRow.
  case_match; simpl; [exact H|].
  eapply appends_trans; [exact H|]. eapply appends_one; [exact Hok | reflexivity].
Qed.

Lemma spawned_none evs :
  forallb (fun ev => negb (is_spawn ev)) evs = true -> spawned evs = [].
Proof.
  induction evs as [|ev evs IH]; [reflexivity|]. simpl.
  intros [Hev Hevs]%andb_true_iff. unfold spawned in *. simpl.
  rewrite (IH Hevs). destruct ev; simpl in *; try reflexivity. discriminate.
Qed.

(** Whatever the outside does, the handler of a job with an unsupported
    language tag adds no spawn to the trace. *)
Lemma unsupported_never_spawns job w0 :
  supported (language job) = false ->
  preserves (appends (fun ev => negb (is_spawn ev)) w0) (executionWorker job).
Proof.
  intros Hsup. unfold executionWorker, guarded.
  assert (Hup : forall st out err ms,
             preserves (appends (fun ev => negb (is_spawn ev)) w0)
               (DB.updateExecutionStatus (executionId job) st out err ms))
    by (intros; apply appends_updateExecutionStatus; reflexivity).
  assert (Ha : forall startTime path,
             preserves (appends (fun ev => negb (is_spawn ev)) w0)
               (attempt job startTime path)).
  { intros startTime path. unfold attempt.
    rewrite (resolveCommand_unsupported _ _ Hsup).
    apply preserves_bind; [frame_with (appends_stable (fun ev => negb (is_spawn ev)) w0)
                          | intros _].
    intros env w H. exact H. }
  assert (Hr : forall startTime error,
             preserves (appends (fun ev => negb (is_spawn ev)) w0)
               (recover job startTime error))
    by (intros; unfold recover;
        frame_with (appends_stable (fun ev => negb (is_spawn ev)) w0)).
  frame_with (appends_stable (fun ev => negb (is_spawn ev)) w0).
Qed.

(** C2 (as amended).  For a job whose language tag is not python, javascript
    or typescript the worker starts no subprocess, whatever the outside
    does.  When the store and the file write do not fail, the handler
    returns normally and the execution is FAILED with stdout NULL and the
    message "Unsupported language: <tag>" as stderr; the source file is
    written before the tag is looked at (it is the one file the run writes)
    and, when its removal does not fail, is gone again when the handler
    returns. *)
Theorem unsupported_language_fails (env : Env) (job : ExecutionJob) (w : World) :
  supported (language job) = false ->
  spawned (events_since w (exec (executionWorker job) env w)) = []
  /\ (store_up env -> (forall t, writeFault env t = None) ->
      forall e0, executions w !! executionId job = Some e0 ->
        outcome (executionWorker job) env w = Ok tt
        /\ written (events_since w (exec (executionWorker job) env w))
           = [filePath env (executionId job) (language job)]
        /\ (exists d,
              executions (exec (executionWorker job) env w) !! executionId job
              = Some {| id := id e0; session_id := session_id e0; status := FAILED;
                        stdout := None;
                        stderr := Some ("Unsupported language: " +:+ language job);
                        execution_time_ms := Some d |})
        /\ ((forall t, unlinkFault env t = None) ->
            files (exec (executionWorker job) env w)
              !! filePath env (executionId job) (language job) = None)).
Proof.
  intros Hsup. split.
  - destruct (unsupported_never_spawns job w Hsup env w (appends_refl _ w))
      as (evs & Ht & Hok).
    rewrite (events_since_app _ _ _ Ht). apply spawned_none, Hok.
  - intros Hdb Hwr e0 Hrow. unfold outcome, exec.
    rewrite executionWorker_running by apply Hdb.
    set (path := filePath env (executionId job) (language job)).
    erewrite guarded_caught_run;
      [| exact Hdb | apply attempt_unsupported; [apply Hwr | exact Hsup]].
    rewrite recover_up by exact Hdb. cbn [fst snd].
    match goal with |- context [exec (cleanup path) env ?w1] =>
      destruct (cleanup_trace env path w1) as (evs & Hc & Hevs);
      pose proof (cleanup_executions env path w1) as He;
      pose proof (cleanup_removes env path w1) as Hrm
    end.
    split; [reflexivity|]. split; [|split].
    + trace_of_run Hc.
      destruct Hevs as [-> | [-> | ->]]; reflexivity.
    + rewrite He. unfold after_running. reduce_worlds.
      rewrite !lookup_alter_eq, Hrow. simpl. eexists. reflexivity.
    + intros Hun. apply Hrm, Hun.
Qed.

(** *** Removal of the source file *)

(** Everything before the cleanup step is blind to how removals behave. *)
Lemma guarded_block_ignores_unlink f env job startTime path w :
  try_catch (attempt job startTime path) (recover job startTime)
    (with_unlinkFault f env) w
  = try_catch (attempt job startTime path) (recover job startTime) env w.
Proof.
  unfold try_catch, attempt, resolveCommand.
  destruct (String.eqb (language job) "python"); [reflexivity|].
  destruct (String.eqb (language job) "javascript"
            || String.eqb (language job) "typescript"); reflexivity.
Qed.

Lemma running_write_ignores_unlink f env eid st out err ms w :
  DB.updateExecutionStatus eid st out err ms (with_unlinkFault f env) w
  = DB.updateExecutionStatus eid st out err ms env w.
Proof. reflexivity. Qed.

Lemma outcome_ignores_unlink f env job w :
  outcome (executionWorker job) (with_unlinkFault f env) w
  = outcome (executionWorker job) env w
  /\ executions (exec (executionWorker job) (with_unlinkFault f env) w)
     = executions (exec (executionWorker job) env w).
Proof.
  unfold outcome, exec, executionWorker, bind at 1 2 3 4 5 6 7 8 9 10 11 12 13 14 15 16.
  unfold Date_now, console_log, TEMP_DIR. reduce_worlds.
  rewrite !running_write_ignores_unlink.
  destruct (DB.updateExecutionStatus _ _ _ _ _ env _) as [[row|e] w1]; [|auto].
  change (tempDir (with_unlinkFault f env)) with (tempDir env).
  set (path := join (tempDir env) (fileName (executionId job) (language job))).
  destruct (try_catch (attempt job (now w) path) (recover job (now w)) env w1)
    as [r w2] eqn:Hblock.
  rewrite (guarded_run env job _ _ _ _ _ Hblock).
  rewrite (guarded_run (with_unlinkFault f env) job _ _ _ r w2)
    by (rewrite guarded_block_ignores_unlink; exact Hblock).
  cbn [fst snd]. rewrite !cleanup_executions. auto.
Qed.

(** C7 (as amended).  Once RUNNING is persisted the cleanup step runs on
    every way out of the handler: when the removal does not fail, the source
    file of the execution does not exist when the handler returns.  How
    removals behave changes neither what the handler returns nor the
    executions table: a failed removal is caught, leaves the file in place
    and adds one line to the error log.  When the RUNNING write throws, the
    handler leaves before its guarded block and the files are as they
    were. *)
Theorem cleanup_on_every_guarded_exit (env : Env) (job : ExecutionJob) (w : World) :
  (dbFault env (tick w) = None -> dbFault env (S (tick w)) = None ->
   (forall t, unlinkFault env t = None) ->
   files (exec (executionWorker job) env w)
     !! filePath env (executionId job) (language job) = None)
  /\ (forall f,
        outcome (executionWorker job) (with_unlinkFault f env) w
        = outcome (executionWorker job) env w
        /\ executions (exec (executionWorker job) (with_unlinkFault f env) w)
           = executions (exec (executionWorker job) env w))
  /\ (forall path e w1,
        unlinkFault env (tick w1) = Some e -> is_Some (files w1 !! path) ->
        cleanup path env w1 =
          (Ok tt, emit (EvError ("Failed to cleanup file " +:+ path)) (elapse env w1)))
  /\ (forall e,
        dbFault env (tick w) = Some e \/
        (dbFault env (tick w) = None /\ dbFault env (S (tick w)) = Some e) ->
        files (exec (executionWorker job) env w) = files w).
Proof.
  split; [|split; [|split]];
    [| | | intros e He; apply (executionWorker_running_fails env job w e He)].
  - intros H0 H1 Hun. unfold exec. rewrite executionWorker_running by assumption.
    destruct (try_catch (attempt job (now w)
                           (filePath env (executionId job) (language job)))
                (recover job (now w)) env (after_running env job w))
      as [r w1] eqn:Hblock.
    rewrite (guarded_run _ _ _ _ _ _ _ Hblock). apply cleanup_removes, Hun.
  - intros f. apply outcome_ignores_unlink.
  - intros path e w1. apply cleanup_failure.
Qed.

(** *** The producer and the polling route *)

Lemma or_empty_default (o : option string) : or_empty o = default "" o.
Proof.
  destruct o as [s|]; [|reflexivity]. simpl.
  destruct (String.eqb_spec s ""); congruence.
Qed.

(** C9.  A call of [addExecutionJob] makes exactly one external call, the
    queue's [add]: when it succeeds, the queue has grown by exactly one job
    named "execute" with payload {executionId, language, code} and options
    attempts 2, exponential backoff from 1000 ms, removeOnComplete true and
    removeOnFail false; when it throws, the queue is as before.  Either way
    the sessions and executions tables, the files and the trace are
    untouched. *)
Theorem addExecutionJob_appends_one_job (env : Env)
    (executionId language code : string) (w : World) :
  (queueFault env (tick w) = None ->
     outcome (addExecutionJob executionId language code) env w = Ok tt
     /\ queue (exec (addExecutionJob executionId language code) env w)
        = queue w ++
          [{| job_name := "execute";
              job_data := {| executionId := executionId; language := language;
                             code := code |};
              job_opts := {| attempts := 2; backoff_type := exponential;
                             backoff_delay := 1000; removeOnComplete := true;
                             removeOnFail := false |} |}])
  /\ (forall e, queueFault env (tick w) = Some e ->
        outcome (addExecutionJob executionId language code) env w = Throw e
        /\ queue (exec (addExecutionJob executionId language code) env w) = queue w)
  /\ sessions (exec (addExecutionJob executionId language code) env w) = sessions w
  /\ executions (exec (addExecutionJob executionId language code) env w) = executions w
  /\ files (exec (addExecutionJob executionId language code) env w) = files w
  /\ trace (exec (addExecutionJob executionId language code) env w) = trace w
  /\ tick (exec (addExecutionJob executionId language code) env w) = S (tick w).
Proof.
  unfold outcome, exec, addExecutionJob, queue_add.
  destruct (queueFault env (tick w)) as [e|]; simpl.
  - split; [discriminate|]. split; [|auto 10].
    intros e' [= <-]. auto.
  - split; [auto|]. split; [discriminate | auto 10].
Qed.

(** C10.  When the store answers, [GET /executions/:id] answers 404 if there
    is no execution with that id; for a COMPLETED, FAILED or TIMEOUT
    execution it answers 200 with execution_id, the name of the status,
    stdout and stderr as strings (the empty string where the column is
    NULL) and execution_time_ms as the number stored, null where the column
    is NULL; for a QUEUED or RUNNING execution it answers 200 with
    execution_id and status and no other field. *)
Theorem poll_response (env : Env) (eid : string) (w : World) :
  dbFault env (tick w) = None ->
  (executions w !! eid = None ->
     outcome (getExecutionRoute eid) env w
     = Ok {| code_of := 404; body := [("error", JString "Execution not found")] |})
  /\ (forall e name, executions w !! eid = Some e ->
        (status e = COMPLETED /\ name = "COMPLETED")
        \/ (status e = FAILED /\ name = "FAILED")
        \/ (status e = TIMEOUT /\ name = "TIMEOUT") ->
        outcome (getExecutionRoute eid) env w
        = Ok {| code_of := 200;
                body := [("execution_id", JString (id e));
                         ("status", JString name);
                         ("stdout", JString (match stdout e with
                                             | Some s => s
                                             | None => ""
                                             end));
                         ("stderr", JString (match stderr e with
                                             | Some s => s
                                             | None => ""
                                             end));
                         ("execution_time_ms",
                          match execution_time_ms e with
                          | Some ms => JNumber ms
                          | None => JNull
                          end)] |})
  /\ (forall e name, executions w !! eid = Some e ->
        (status e = QUEUED /\ name = "QUEUED")
        \/ (status e = RUNNING /\ name = "RUNNING") ->
        exists r,
          outcome (getExecutionRoute eid) env w = Ok r
          /\ code_of r = 200
          /\ body r = [("execution_id", JString (id e)); ("status", JString name)]
          /\ field "stdout" (body r) = None
          /\ field "stderr" (body r) = None
          /\ field "execution_time_ms" (body r) = None).
Proof.
  intros Hdb.
  unfold outcome, getExecutionRoute, try_catch, bind, DB.getExecution, ret.
  rewrite Hdb. split; [|split].
  - intros ->. reflexivity.
  - intros e name -> Hst.
    change (match stdout e with Some s => s | None => "" end)
      with (default "" (stdout e)).
    change (match stderr e with Some s => s | None => "" end)
      with (default "" (stderr e)).
    rewrite <- !or_empty_default.
    destruct Hst as [[-> ->] | [[-> ->] | [-> ->]]]; reflexivity.
  - intros e name -> Hst.
    destruct Hst as [[-> ->] | [-> ->]]; simpl; eexists; repeat split; reflexivity.
Qed.

(** *** The result columns over the life of an execution *)

Lemma forallb_elem_of (ok : Event -> bool) evs ev :
  forallb ok evs = true -> ev ∈ evs -> ok ev = true.
Proof.
  induction evs as [|a evs IH]; intros Hok Hin.
  - apply elem_of_nil in Hin. destruct Hin.
  - simpl in Hok. apply andb_prop in Hok as [Ha Hok].
    apply elem_of_cons in Hin as [-> | Hin]; [exact Ha | exact (IH Hok Hin)].
Qed.

Lemma null_unless_terminal_executionWorker job w0 :
  preserves (appends null_unless_terminal w0) (executionWorker job).
Proof.
  unfold executionWorker, guarded.
  assert (Hup : forall st out err ms,
             null_unless_terminal (EvUpdate (executionId job) st out err ms) = true ->
             preserves (appends null_unless_terminal w0)
               (DB.updateExecutionStatus (executionId job) st out err ms))
    by (intros; apply appends_updateExecutionStatus; assumption).
  assert (Hrun : preserves (appends null_unless_terminal w0)
                   (DB.updateExecutionStatus (executionId job) RUNNING None None None))
    by (apply Hup; reflexivity).
  assert (Ha : forall startTime path,
             preserves (appends null_unless_terminal w0) (attempt job startTime path)).
  { intros startTime path. unfold attempt.
    assert (Hdone : forall out err ms,
               preserves (appends null_unless_terminal w0)
                 (DB.updateExecutionStatus (executionId job) COMPLETED out err ms))
      by (intros; apply Hup; reflexivity).
    frame_with (appends_stable null_unless_terminal w0). }
  assert (Hr : forall startTime error,
             preserves (appends null_unless_terminal w0) (recover job startTime error)).
  { intros startTime error. unfold recover.
    assert (Hfail : forall out err ms,
               preserves (appends null_unless_terminal w0)
                 (DB.updateExecutionStatus (executionId job)
                    (if String.eqb error TIMEOUT_MESSAGE then TIMEOUT else FAILED)
                    out err ms))
      by (intros; apply Hup; destruct (String.eqb error TIMEOUT_MESSAGE); reflexivity).
    frame_with (appends_stable null_unless_terminal w0). }
  frame_with (appends_stable null_unless_terminal w0).
Qed.

(** C8.  The three result columns stdout, stderr and execution_time_ms are
    unset (NULL) on every row whose status is QUEUED or RUNNING, in every
    world the program reaches from an empty executions table, whatever the
    outside does.  [createExecution] stores the row with status QUEUED and
    NULL in the three columns; the RUNNING write of the worker stores
    RUNNING and NULL in the three columns over whatever the row held; and
    every write of a run that carries a value in one of the three columns
    carries a terminal status. *)
Theorem output_unset_while_pending :
  (forall w, reachable w -> unset_while_pending w)
  /\ (forall env eid sid w,
        dbFault env (tick w) = None ->
        executions w !! eid = None ->
        is_Some (sessions w !! sid) ->
        executions (exec (DB.createExecution eid sid) env w) !! eid
        = Some {| id := eid; session_id := sid; status := QUEUED;
                  stdout := None; stderr := None; execution_time_ms := None |})
  /\ (forall env job w e0 e,
        dbFault env (tick w) = None ->
        dbFault env (S (tick w)) = Some e ->
        executions w !! executionId job = Some e0 ->
        outcome (executionWorker job) env w = Throw e
        /\ executions (exec (executionWorker job) env w) !! executionId job
           = Some {| id := id e0; session_id := session_id e0; status := RUNNING;
                     stdout := None; stderr := None; execution_time_ms := None |})
  /\ (forall env job w i st out err ms,
        EvUpdate i st out err ms
          ∈ events_since w (exec (executionWorker job) env w) ->
        st = QUEUED \/ st = RUNNING ->
        out = None /\ err = None /\ ms = None).
Proof.
  split; [|split; [|split]].
  - induction 1 as [w Hempty | op env w _ IH].
    + intros eid e Hlook. rewrite Hempty, lookup_empty in Hlook. discriminate.
    + apply unset_perform, IH.
  - intros env eid sid w Hdb Hnone [s Hs].
    unfold exec, DB.createExecution, bind, DB.insertExecution, DB.getExecution.
    rewrite Hdb, Hnone, Hs. reduce_worlds.
    destruct (dbFault env (S (tick w))); reduce_worlds; apply lookup_insert_eq.
  - intros env job w e0 e Hdb0 Hdb1 Hrow.
    unfold outcome, exec, executionWorker, bind at 1 2 3.
    unfold Date_now, console_log, DB.updateExecutionStatus, bind,
      DB.updateExecutionRow, DB.getExecution.
    reduce_worlds. rewrite Hdb0. reduce_worlds. rewrite Hdb1. reduce_worlds.
    split; [reflexivity|]. rewrite lookup_alter_eq, Hrow. reflexivity.
  - intros env job w i st out err ms Hin Hst.
    destruct (null_unless_terminal_executionWorker job w env w (appends_refl _ w))
      as (evs & Ht & Hok).
    rewrite (events_since_app _ _ _ Ht) in Hin.
    pose proof (forallb_elem_of _ _ _ Hok Hin) as Hev. simpl in Hev.
    destruct Hst as [-> | ->]; simpl in Hev;
      apply andb_prop in Hev as [Hev Hms]; apply andb_prop in Hev as [Hout Herr];
      apply bool_decide_eq_true_1 in Hout, Herr, Hms; auto.
Qed.

(** *** The sample runs *)

(** C3.  The sample interpreter rejects the script [print('broken] at once,
    with exit code 1 and a message on its error stream; the worker persists
    that run as COMPLETED. *)
Theorem syntax_error_is_persisted_completed :
  exits_first (subprocess_of sample_env broken_job sample_world) = true
  /\ exit_code (subprocess_of sample_env broken_job sample_world) = 1
  /\ executions (exec (executionWorker broken_job) sample_env sample_world) !! "e1"
     = Some {| id := "e1"; session_id := "s1"; status := COMPLETED;
               stdout := Some "";
               stderr := Some "SyntaxError: unterminated string literal";
               execution_time_ms := Some 47 |}.
Proof. vm_compute. auto. Qed.

(** Against C1: the connection to the store is lost right after the RUNNING
    update; the exception leaves the handler, no terminal status is written
    and the row stays RUNNING. *)
Lemma running_write_failure_propagates :
  outcome (executionWorker hello_job) select_fails_env sample_world
  = Throw "ECONNRESET"
  /\ status <$> executions (exec (executionWorker hello_job) select_fails_env
                             sample_world) !! "e1" = Some RUNNING
  /\ status_writes "e1"
       (events_since sample_world
          (exec (executionWorker hello_job) select_fails_env sample_world))
     = [RUNNING].
Proof. vm_compute. auto. Qed.

(** Against C2: for the tag ruby the source file of the execution is
    written to the temporary directory. *)
Lemma unsupported_language_writes_file :
  supported (language ruby_job) = false
  /\ written (events_since sample_world
                (exec (executionWorker ruby_job) sample_env sample_world))
     = ["/app/temp_execution/e1.js"].
Proof. vm_compute. auto. Qed.

(** Against C6: the same job delivered twice; the second delivery writes
    RUNNING over the COMPLETED of the first. *)
Lemma redelivery_overwrites_terminal :
  status <$> executions (deliver 1 hello_job sample_env sample_world) !! "e1"
  = Some COMPLETED
  /\ status_writes "e1"
       (events_since sample_world (deliver 2 hello_job sample_env sample_world))
     = [RUNNING; COMPLETED; RUNNING; COMPLETED]
  /\ never_leaves_terminal
       (status_writes "e1"
          (events_since sample_world (deliver 2 hello_job sample_env sample_world)))
     = false.
Proof. vm_compute. auto. Qed.

(** Against C7: the removal fails; the handler returns normally and the
    source file is still there.  Delivered again while the store is
    unreachable, the handler leaves before its guarded block and the file,
    which no removal is attempted on, is there afterwards as well. *)
Lemma file_remains_when_removal_fails :
  outcome (executionWorker hello_job) unlink_fails_env sample_world = Ok tt
  /\ files (exec (executionWorker hello_job) unlink_fails_env sample_world)
       !! filePath unlink_fails_env "e1" "python" = Some "print('hi')"
  /\ outcome (executionWorker hello_job) store_down_env
       (exec (executionWorker hello_job) unlink_fails_env sample_world)
     = Throw "ECONNREFUSED"
  /\ files (exec (executionWorker hello_job) store_down_env
              (exec (executionWorker hello_job) unlink_fails_env sample_world))
       !! filePath store_down_env "e1" "python" = Some "print('hi')".
Proof. vm_compute. auto. Qed.



(** *** The theorems at the sample runs *)

Lemma sample_env_calm : calm sample_env.
Proof. intros t. repeat split. Defined.

Lemma sample_env_store_up : store_up sample_env.
Proof. intros t. reflexivity. Defined.

Lemma exceptions_resolved_witness :
  store_up sample_env
  /\ is_Some (executions sample_world !! executionId ruby_job)
  /\ outcome (executionWorker ruby_job) sample_env sample_world = Ok tt.
Proof.
  assert (H2 : is_Some (executions sample_world !! executionId ruby_job))
    by (exists queued_execution; reflexivity).
  split; [exact sample_env_store_up|]. split; [exact H2|].
  exact (proj1 (proj1 (exceptions_resolved_when_store_up sample_env ruby_job
                         sample_world) sample_env_store_up H2)).
Defined.

Lemma unsupported_language_witness :
  supported (language ruby_job) = false
  /\ spawned (events_since sample_world
                (exec (executionWorker ruby_job) sample_env sample_world)) = []
  /\ outcome (executionWorker ruby_job) sample_env sample_world = Ok tt.
Proof.
  split; [reflexivity|].
  destruct (unsupported_language_fails sample_env ruby_job sample_world eq_refl)
    as [Hspawn Hrest].
  split; [exact Hspawn|].
  exact (proj1 (Hrest sample_env_store_up (fun t => eq_refl) queued_execution eq_refl)).
Defined.



Lemma one_run_witness :
  store_up sample_env
  /\ exists st, is_terminal st = true
       /\ status_writes (executionId hello_job)
            (events_since sample_world
               (exec (executionWorker hello_job) sample_env sample_world))
          = [RUNNING; st]
       /\ never_leaves_terminal [RUNNING; st] = true.
Proof.
  split; [exact sample_env_store_up|].
  exact (one_run_writes_running_then_terminal sample_env hello_job sample_world
           sample_env_store_up).
Defined.

Lemma cleanup_witness :
  dbFault sample_env (tick sample_world) = None
  /\ dbFault sample_env (S (tick sample_world)) = None
  /\ (forall t, unlinkFault sample_env t = None)
  /\ files (exec (executionWorker hello_job) sample_env sample_world)
       !! filePath sample_env (executionId hello_job) (language hello_job) = None.
Proof.
  split; [reflexivity|]. split; [reflexivity|]. split; [intros t; reflexivity|].
  exact (proj1 (cleanup_on_every_guarded_exit sample_env hello_job sample_world)
           eq_refl eq_refl (fun t => eq_refl)).
Defined.

Lemma output_unset_witness :
  reachable (perform (OpWork hello_job) reread_fails_env
               (perform (OpCreateExecution "e1" "s1") sample_env
                  (perform (OpCreateSession "s1" "python" "print('hi')") sample_env
                     empty_world)))
  /\ executions (perform (OpCreateExecution "e1" "s1") sample_env
                   (perform (OpCreateSession "s1" "python" "print('hi')") sample_env
                      empty_world)) !! "e1"
     = Some {| id := "e1"; session_id := "s1"; status := QUEUED;
               stdout := None; stderr := None; execution_time_ms := None |}
  /\ exists e,
       executions (perform (OpWork hello_job) reread_fails_env
                     (perform (OpCreateExecution "e1" "s1") sample_env
                        (perform (OpCreateSession "s1" "python" "print('hi')")
                           sample_env empty_world))) !! "e1" = Some e
       /\ status e = RUNNING
       /\ stdout e = None /\ stderr e = None /\ execution_time_ms e = None.
Proof.
  assert (H : reachable (perform (OpWork hello_job) reread_fails_env
               (perform (OpCreateExecution "e1" "s1") sample_env
                  (perform (OpCreateSession "s1" "python" "print('hi')") sample_env
                     empty_world))))
    by (do 3 apply reach_step; apply reach_start; reflexivity).
  split; [exact H|]. split; [reflexivity|].
  exists {| id := "e1"; session_id := "s1"; status := RUNNING;
            stdout := None; stderr := None; execution_time_ms := None |}.
  split; [reflexivity|]. split; [reflexivity|].
  exact (proj1 output_unset_while_pending _ H "e1" _ eq_refl (or_intror eq_refl)).
Defined.

Lemma addExecutionJob_witness :
  queueFault sample_env (tick sample_world) = None
  /\ outcome (addExecutionJob "e1" "python" "print('hi')") sample_env sample_world
     = Ok tt.
Proof.
  split; [reflexivity|].
  exact (proj1 (proj1 (addExecutionJob_appends_one_job sample_env "e1" "python"
                         "print('hi')" sample_world) eq_refl)).
Defined.

Lemma poll_witness :
  dbFault sample_env
    (tick (exec (executionWorker hello_job) sample_env sample_world)) = None
  /\ executions (exec (executionWorker hello_job) sample_env sample_world) !! "e1"
     = Some {| id := "e1"; session_id := "s1"; status := COMPLETED;
               stdout := Some ("hi" +:+ newline); stderr := None;
               execution_time_ms := Some 37 |}
  /\ outcome (getExecutionRoute "e1") sample_env
       (exec (executionWorker hello_job) sample_env sample_world)
     = Ok {| code_of := 200;
             body := [("execution_id", JString "e1");
                      ("status", JString "COMPLETED");
                      ("stdout", JString ("hi" +:+ newline));
                      ("stderr", JString "");
                      ("execution_time_ms", JNumber 37)] |}.
Proof.
  split; [reflexivity|]. split; [reflexivity|].
  exact (proj1 (proj2 (poll_response sample_env "e1"
                         (exec (executionWorker hello_job) sample_env sample_world)
                         eq_refl))
           {| id := "e1"; session_id := "s1"; status := COMPLETED;
              stdout := Some ("hi" +:+ newline); stderr := None;
              execution_time_ms := Some 37 |}
           "COMPLETED" eq_refl (or_introl (conj eq_refl eq_refl))).
Defined.

(** ** Further properties of the code *)

(** *** What each primitive may touch *)

Section Footprint.
Variable touch_file touch_row : string -> Prop.
Variable P : World -> Prop.
Hypothesis P_framed : framed touch_file touch_row P.

Lemma framed_inert w w' :
  sessions w' = sessions w -> executions w' = executions w ->
  files w' = files w -> queue w' = queue w -> P w -> P w'.
Proof.
  intros Hs He Hf Hq. apply P_framed; auto; intros; rewrite ?He, ?Hf; reflexivity.
Qed.

Ltac inert :=
  let env := fresh "env" in let w := fresh "w" in let H := fresh "H" in
  intros env w H; unfold exec; unfold_primitives;
  repeat case_match; simpl;
  first [ exact H | eapply framed_inert; [| | | |exact H]; reflexivity ].

Lemma keeps_Date_now : preserves P Date_now.
Proof. inert. Qed.

Lemma keeps_TEMP_DIR : preserves P TEMP_DIR.
Proof. inert. Qed.

Lemma keeps_uuid : preserves P uuid.
Proof. inert. Qed.

Lemma keeps_console_log msg : preserves P (console_log msg).
Proof. inert. Qed.

Lemma keeps_console_error msg : preserves P (console_error msg).
Proof. inert. Qed.

Lemma keeps_existsSync path : preserves P (existsSync path).
Proof. inert. Qed.

Lemma keeps_spawn cmd : preserves P (spawn cmd).
Proof. inert. Qed.

Lemma keeps_race proc : preserves P (race proc).
Proof. inert. Qed.

Lemma keeps_text s : preserves P (text s).
Proof. inert. Qed.

Lemma keeps_getSession sid : preserves P (DB.getSession sid).
Proof. inert. Qed.

Lemma keeps_getExecution eid : preserves P (DB.getExecution eid).
Proof. inert. Qed.

Lemma keeps_resolveCommand lang path : preserves P (resolveCommand lang path).
Proof. inert. Qed.

Lemma keeps_onError e : preserves P (onError e).
Proof.
  apply preserves_bind; [apply keeps_console_error | intros; apply preserves_ret].
Qed.

Lemma keeps_writeFile path content :
  touch_file path -> preserves P (writeFile path content).
Proof.
  intros Ht env w H. unfold exec, writeFile.
  case_match; simpl; [eapply framed_inert; [| | | |exact H]; reflexivity|].
  eapply P_framed; [| | | | |exact H]; try reflexivity.
  intros p Hp. simpl. apply lookup_insert_ne. intros ->. contradiction.
Qed.

Lemma keeps_unlink path :
  touch_file path -> preserves P (unlink path).
Proof.
  intros Ht env w H. unfold exec, unlink.
  repeat case_match; simpl;
    try (eapply framed_inert; [| | | |exact H]; reflexivity).
  eapply P_framed; [| | | | |exact H]; try reflexivity.
  intros p Hp. simpl. apply lookup_delete_ne. intros ->. contradiction.
Qed.

Lemma keeps_cleanup path :
  touch_file path -> preserves P (cleanup path).
Proof.
  intros Ht. apply preserves_try_catch.
  - apply preserves_bind; [apply keeps_existsSync|].
    intros [|]; [apply keeps_unlink, Ht | apply preserves_ret].
  - intros _. apply keeps_console_error.
Qed.

Lemma keeps_updateExecutionStatus eid st out err ms :
  touch_row eid -> preserves P (DB.updateExecutionStatus eid st out err ms).
Proof.
  intros Ht. apply preserves_bind; [|intros _; apply keeps_getExecution].
  intros env w H. unfold exec, DB.updateExecutionRow.
  case_match; simpl; [eapply framed_inert; [| | | |exact H]; reflexivity|].
  eapply P_framed; [| | | | |exact H]; try reflexivity.
  - intros i Hi. simpl. apply lookup_alter_ne. intros ->. contradiction.
  - intros i. simpl. rewrite lookup_alter. case_decide as Heq; [|reflexivity].
    subst i. destruct (executions w !! eid); reflexivity.
Qed.
End Footprint.

(** Settles [preserves P m] for the handlers of the worker, given the proof
    [Fr] that [P] is framed and proofs [Hf], [Hr] that the file and the row
    of the job may be touched. *)
Ltac footprint_with Fr Hf Hr :=
  repeat first
    [ solve [auto]
    | apply (keeps_cleanup _ _ _ Fr); exact Hf
    | apply (keeps_updateExecutionStatus _ _ _ Fr); exact Hr
    | apply (keeps_onError _ _ _ Fr)
    | apply preserves_ret | apply preserves_throw
    | apply preserves_bind; [|intros ?]
    | apply preserves_try_catch; [|intros ?]
    | apply preserves_finally
    | apply keeps_Date_now | apply keeps_TEMP_DIR | apply keeps_uuid
    | apply keeps_existsSync | apply keeps_resolveCommand
    | apply (keeps_console_log _ _ _ Fr)
    | apply (keeps_console_error _ _ _ Fr)
    | apply (keeps_writeFile _ _ _ Fr); exact Hf
    | apply (keeps_spawn _ _ _ Fr)
    | apply (keeps_race _ _ _ Fr)
    | apply (keeps_text _ _ _ Fr)
    | apply (keeps_getSession _ _ _ Fr)
    | apply (keeps_getExecution _ _ _ Fr) ].

(** *** The footprint of the worker *)











(** *** Names of the source files *)

Lemma string_length_app (s1 s2 : string) :
  String.length (s1 +:+ s2) = (String.length s1 + String.length s2)%nat.
Proof.
  induction s1 as [|c s1 IH]; [reflexivity|].
  change (String c s1 +:+ s2) with (String c (s1 +:+ s2)).
  simpl. rewrite IH. reflexivity.
Qed.

(** Two strings with suffixes of the same length are equal only when both
    parts are. *)
Lemma string_app_inj_suffix (s1 s2 a b : string) :
  String.length a = String.length b ->
  s1 +:+ a = s2 +:+ b -> s1 = s2 /\ a = b.
Proof.
  intros Hlen. revert s2.
  induction s1 as [|c s1 IH]; intros [|c2 s2] Heq.
  - auto.
  - apply (f_equal String.length) in Heq.
    rewrite !string_length_app in Heq. simpl in Heq. lia.
  - apply (f_equal String.length) in Heq.
    rewrite !string_length_app in Heq. simpl in Heq. lia.
  - change (String c (s1 +:+ a) = String c2 (s2 +:+ b)) in Heq.
    injection Heq as -> Heq. destruct (IH s2 Heq) as [-> ->]. auto.
Qed.

Lemma fileName_inj id1 lang1 id2 lang2 :
  fileName id1 lang1 = fileName id2 lang2 -> id1 = id2.
Proof.
  unfold fileName. intros Heq.
  apply string_app_inj_suffix in Heq as [Heq _]; [exact Heq|].
  destruct (String.eqb lang1 "python"), (String.eqb lang2 "python"); reflexivity.
Qed.

(** The paths that [join] builds from a directory and a plain file name. *)

Lemma string_app_nil_r (s : string) : s +:+ "" = s.
Proof.
  induction s as [|c s IH]; [reflexivity|].
  change (String c s +:+ "") with (String c (s +:+ "")). rewrite IH. reflexivity.
Qed.

Lemma string_app_assoc (a b c : string) : (a +:+ b) +:+ c = a +:+ (b +:+ c).
Proof.
  induction a as [|x a IH]; [reflexivity|].
  change (String x ((a +:+ b) +:+ c) = String x (a +:+ (b +:+ c))).
  rewrite IH. reflexivity.
Qed.

Lemma string_app_nonempty a b : b <> "" -> String.eqb (a +:+ b) "" = false.
Proof.
  intros Hb. apply String.eqb_neq. intros E.
  destruct a; [exact (Hb E)|discriminate].
Qed.

Lemma segments_cons path : exists seg more, segments path = seg :: more.
Proof.
  induction path as [|c rest (seg & more & IH)]; simpl; [eauto|].
  destruct (is_separator c); [eauto|]. rewrite IH. eauto.
Qed.

Lemma segments_app (a b : string) :
  segments (a +:+ "/" +:+ b) = segments a ++ segments b.
Proof.
  induction a as [|c a IH].
  - reflexivity.
  - change (String c a +:+ "/" +:+ b) with (String c (a +:+ "/" +:+ b)).
    cbn [segments]. rewrite IH. destruct (is_separator c); [reflexivity|].
    destruct (segments_cons a) as (seg & more & ->). reflexivity.
Qed.

Lemma segments_plain name : no_separator name = true -> segments name = [name].
Proof.
  induction name as [|c name IH]; [reflexivity|].
  cbn [no_separator segments]. intros H. apply andb_prop in H as [Hc Hn].
  unfold is_separator. destruct (Ascii.eqb c "/"); [discriminate|].
  rewrite (IH Hn). reflexivity.
Qed.

Lemma join_segments_snoc l name :
  join_segments (l ++ [name])
  = match l with [] => "" | _ => join_segments l +:+ "/" end +:+ name.
Proof.
  induction l as [|a l IH]; [reflexivity|].
  destruct l as [|b l].
  - cbn [app join_segments]. rewrite string_app_assoc. reflexivity.
  - change (join_segments ((a :: b :: l) ++ [name]))
      with (a +:+ "/" +:+ join_segments ((b :: l) ++ [name])).
    rewrite IH.
    change (join_segments (a :: b :: l)) with (a +:+ "/" +:+ join_segments (b :: l)).
    rewrite !string_app_assoc. reflexivity.
Qed.

Lemma ends_with_separator_app a b :
  b <> "" -> ends_with_separator (a +:+ b) = ends_with_separator b.
Proof.
  intros Hb. induction a as [|c a IH]; [reflexivity|].
  change (String c a +:+ b) with (String c (a +:+ b)).
  cbn [ends_with_separator]. destruct (a +:+ b) eqn:E.
  - destruct a; [exact (False_ind _ (Hb E)) | discriminate E].
  - exact IH.
Qed.

Lemma ends_with_separator_plain name :
  no_separator name = true -> ends_with_separator name = false.
Proof.
  induction name as [|c name IH]; [reflexivity|].
  cbn [no_separator ends_with_separator]. intros H. apply andb_prop in H as [Hc Hn].
  destruct name; [|exact (IH Hn)].
  unfold is_separator. destruct (Ascii.eqb c "/"); [discriminate|reflexivity].
Qed.

Lemma normalizeSegment_plain allow res name :
  plain name -> normalizeSegment allow res name = name :: res.
Proof.
  intros (_ & H1 & H2 & H3). unfold normalizeSegment.
  apply String.eqb_neq in H1, H2, H3. rewrite H1, H2, H3. reflexivity.
Qed.

Lemma normalize_plain name : plain name -> normalize name = name.
Proof.
  intros Hp. pose proof Hp as (Hsep & Hne & _).
  unfold normalize, normalizeString. apply String.eqb_neq in Hne. rewrite Hne.
  rewrite (segments_plain _ Hsep). cbn [fold_left].
  rewrite (normalizeSegment_plain _ _ _ Hp). cbn [rev app join_segments].
  rewrite Hne, (ends_with_separator_plain _ Hsep).
  destruct name as [|c name]; [discriminate|].
  cbn [no_separator] in Hsep. apply andb_prop in Hsep as [Hc _].
  cbn [starts_with_separator]. unfold is_separator.
  destruct (Ascii.eqb c "/"); [discriminate|].
  rewrite string_app_nil_r. reflexivity.
Qed.

Lemma join_plain dir name :
  plain name -> join dir name = joined_prefix dir +:+ name.
Proof.
  intros Hp. pose proof Hp as (Hsep & Hne & _).
  unfold join, joined_prefix.
  rewrite (proj2 (String.eqb_neq name "") Hne).
  destruct (String.eqb dir "") eqn:Hdir; [exact (normalize_plain _ Hp)|].
  set (abs := starts_with_separator dir).
  unfold normalize, normalizeString.
  rewrite string_app_nonempty by (intros E; discriminate E).
  assert (Habs : starts_with_separator (dir +:+ "/" +:+ name) = abs).
  { destruct dir; [discriminate|reflexivity]. }
  assert (Hend : ends_with_separator (dir +:+ "/" +:+ name) = false).
  { rewrite <- string_app_assoc, ends_with_separator_app by exact Hne.
    exact (ends_with_separator_plain _ Hsep). }
  rewrite Habs, Hend. rewrite segments_app, (segments_plain _ Hsep).
  rewrite fold_left_app. cbn [fold_left].
  rewrite (normalizeSegment_plain _ _ _ Hp). cbn [rev].
  rewrite join_segments_snoc.
  rewrite string_app_nonempty by exact Hne.
  rewrite string_app_nil_r, string_app_assoc.
  destruct (rev _); reflexivity.
Qed.

(** A [./] in front of a plain file name is normalised away. *)
Lemma join_dot_plain dir name :
  plain name -> join dir ("./" +:+ name) = join dir name.
Proof.
  intros Hp. rewrite (join_plain _ _ Hp). pose proof Hp as (Hsep & Hne & _).
  assert (Hend : forall a, ends_with_separator (a +:+ name) = false)
    by (intros a; rewrite ends_with_separator_app by exact Hne;
        exact (ends_with_separator_plain _ Hsep)).
  unfold join, joined_prefix.
  change ("./" +:+ name) with ("." +:+ "/" +:+ name).
  rewrite (string_app_nonempty "." ("/" +:+ name)) by (intros E; discriminate E).
  destruct (String.eqb dir "") eqn:Hdir.
  - unfold normalize, normalizeString.
    rewrite (string_app_nonempty "." ("/" +:+ name)) by (intros E; discriminate E).
    rewrite segments_app, (segments_plain _ Hsep).
    change (segments ".") with ["."]. cbn [app fold_left].
    change (normalizeSegment (negb (starts_with_separator ("." +:+ "/" +:+ name)))
              [] ".") with (@nil string).
    rewrite (normalizeSegment_plain _ _ _ Hp). cbn [rev app join_segments].
    rewrite (proj2 (String.eqb_neq name "") Hne).
    change ("." +:+ "/" +:+ name) with ("./" +:+ name). rewrite Hend.
    rewrite string_app_nil_r. reflexivity.
  - set (abs := starts_with_separator dir).
    unfold normalize, normalizeString.
    rewrite string_app_nonempty by (intros E; discriminate E).
    assert (Habs : starts_with_separator (dir +:+ "/" +:+ "." +:+ "/" +:+ name) = abs).
    { destruct dir; [discriminate|reflexivity]. }
    assert (Hend' : ends_with_separator (dir +:+ "/" +:+ "." +:+ "/" +:+ name) = false).
    { rewrite <- !string_app_assoc. apply Hend. }
    rewrite Habs, Hend'. rewrite !segments_app, (segments_plain _ Hsep).
    change (segments ".") with ["."].
    rewrite !fold_left_app. cbn [fold_left].
    change (normalizeSegment (negb abs) ?res ".") with res.
    rewrite (normalizeSegment_plain _ _ _ Hp). cbn [rev].
    rewrite join_segments_snoc.
    rewrite string_app_nonempty by exact Hne.
    rewrite string_app_nil_r, string_app_assoc.
    destruct (rev _); reflexivity.
Qed.

Lemma no_separator_app a b :
  no_separator (a +:+ b) = no_separator a && no_separator b.
Proof.
  induction a as [|c a IH]; [reflexivity|].
  change (String c a +:+ b) with (String c (a +:+ b)).
  cbn [no_separator]. rewrite IH, andb_assoc. reflexivity.
Qed.

Lemma fileName_plain eid lang :
  no_separator eid = true -> plain (fileName eid lang).
Proof.
  intros Hsep. unfold plain, fileName. split.
  - rewrite no_separator_app, Hsep.
    destruct (String.eqb lang "python"); reflexivity.
  - assert (Hlen : (3 <= String.length
                      (eid +:+ "." +:+ (if String.eqb lang "python" then "py" else "js")))%nat).
    { rewrite string_length_app. destruct (String.eqb lang "python"); simpl; lia. }
    repeat split; intros E; rewrite E in Hlen; simpl in Hlen; lia.
Qed.

(** X2.  The names of the source files never collide: executions with
    different ids get different file names, whatever their languages.  The
    paths of the files are different as well when neither id contains a
    path separator, as is the case for the UUIDs the run route hands out;
    [path.join] normalises what it is given, and an id with a separator may
    share its path with another: the id [./x] has the path of [x]. *)
Theorem distinct_executions_distinct_files (env : Env)
    (id1 lang1 id2 lang2 : string) :
  id1 <> id2 ->
  fileName id1 lang1 <> fileName id2 lang2
  /\ (no_separator id1 = true -> no_separator id2 = true ->
      filePath env id1 lang1 <> filePath env id2 lang2)
  /\ (no_separator id1 = true ->
      filePath env ("./" +:+ id1) lang1 = filePath env id1 lang1).
Proof.
  intros Hne. split; [|split].
  - intros Heq. apply Hne. exact (fileName_inj _ _ _ _ Heq).
  - intros H1 H2. unfold filePath.
    rewrite (join_plain _ _ (fileName_plain id1 lang1 H1)).
    rewrite (join_plain _ _ (fileName_plain id2 lang2 H2)).
    intros Heq. apply (inj (String.app (joined_prefix (tempDir env)))) in Heq.
    apply Hne. exact (fileName_inj _ _ _ _ Heq).
  - intros H1. unfold filePath.
    change (fileName ("./" +:+ id1) lang1) with ("./" +:+ fileName id1 lang1).
    apply join_dot_plain, fileName_plain, H1.
Qed.

(** *** The order and the number of the effects of one run *)

Lemma trace_only_updateExecutionStatus ok (P : World -> Prop) eid st out err ms :
  (forall w w', appends ok w w' -> P w -> P w') ->
  ok (EvUpdate eid st out err ms) = true ->
  preserves P (DB.updateExecutionStatus eid st out err ms).
Proof.
  intros HP Hok env w H.
  unfold exec, DB.updateExecutionStatus, bind, DB.updateExecutionRow, DB.getExecution.
  repeat case_match; simplify_eq; reduce_worlds;
    (eapply HP; [|exact H]);
    first [ exists []; split; [symmetry; apply app_nil_r | reflexivity]
          | eapply appends_one; [exact Hok | reflexivity] ].
Qed.

(** Once the RUNNING update has gone through, the rest of the handler runs
    in the world that holds it. *)
Lemma executionWorker_after_update env job w :
  dbFault env (tick w) = None ->
  executionWorker job env w =
    bind (DB.getExecution (executionId job))
      (fun _ => guarded job (now w)
                  (filePath env (executionId job) (language job))) env
      (emit (EvUpdate (executionId job) RUNNING None None None)
         (set_executions
            (alter (DB.overwrite RUNNING None None None) (executionId job))
            (elapse env
               (emit (EvLog ("[Worker] Processing execution " +:+ executionId job
                             +:+ " (" +:+ language job +:+ ")")) w)))).
Proof.
  intros H.
  unfold executionWorker, DB.updateExecutionStatus, bind, Date_now, console_log,
    DB.updateExecutionRow, TEMP_DIR.
  reduce_worlds. rewrite H. reflexivity.
Qed.

Lemma guarded_appends job startTime path w0 :
  preserves (appends (fun _ => true) w0) (guarded job startTime path).
Proof.
  assert (Hup : forall st out err ms,
             preserves (appends (fun _ => true) w0)
               (DB.updateExecutionStatus (executionId job) st out err ms))
    by (intros; apply (trace_only_updateExecutionStatus (fun _ => true));
        [intros w w' Hww' Hw; eapply appends_trans; eauto | reflexivity]).
  unfold guarded, attempt, recover.
  frame_with (appends_stable (fun _ : Event => true) w0).
Qed.

(** X3.  RUNNING is persisted before anything else is done for a job: the
    events of a run begin with the log line of the job and, unless the store
    refuses the update, the RUNNING write, so every file write, spawn and
    kill of the run comes after it; when the store refuses the update the
    log line is the only event of the run. *)
Theorem running_is_written_first (env : Env) (job : ExecutionJob) (w : World) :
  match dbFault env (tick w) with
  | Some _ =>
      events_since w (exec (executionWorker job) env w)
      = [EvLog ("[Worker] Processing execution " +:+ executionId job
                +:+ " (" +:+ language job +:+ ")")]
  | None =>
      exists rest,
        events_since w (exec (executionWorker job) env w)
        = EvLog ("[Worker] Processing execution " +:+ executionId job
                 +:+ " (" +:+ language job +:+ ")")
          :: EvUpdate (executionId job) RUNNING None None None :: rest
  end.
Proof.
  destruct (dbFault env (tick w)) as [e|] eqn:Hdb.
  - apply events_since_app. unfold exec, executionWorker, bind at 1 2 3.
    unfold Date_now, console_log, DB.updateExecutionStatus, bind,
      DB.updateExecutionRow.
    reduce_worlds. rewrite Hdb. reflexivity.
  - unfold exec. rewrite (executionWorker_after_update _ _ _ Hdb).
    match goal with |- context [bind ?m ?k env ?w1] =>
      assert (Hrest : preserves (appends (fun _ => true) w1) (bind m k))
        by (pose proof (guarded_appends job);
            frame_with (appends_stable (fun _ : Event => true) w1));
      destruct (Hrest env w1 (appends_refl _ w1)) as (rest & Ht & _)
    end.
    exists rest. apply events_since_app. unfold exec in Ht. rewrite Ht.
    reduce_worlds. rewrite <- !app_assoc. reflexivity.
Qed.

Lemma leads_preserves_bind {A B} (P Q : World -> Prop) (m : M A) (k : A -> M B) :
  preserves P m -> (forall w, P w -> Q w) -> (forall a, leads P Q (k a)) ->
  leads P Q (bind m k).
Proof.
  intros Hm HPQ Hk env w HP. specialize (Hm env w HP).
  unfold exec, bind in *. destruct (m env w) as [[a|e] w1]; simpl in *.
  - apply (Hk a env w1 Hm).
  - apply HPQ, Hm.
Qed.

Lemma leads_bind_preserves {A B} (P Q : World -> Prop) (m : M A) (k : A -> M B) :
  leads P Q m -> (forall a, preserves Q (k a)) -> leads P Q (bind m k).
Proof.
  intros Hm Hk env w HP. specialize (Hm env w HP).
  unfold exec, bind in *. destruct (m env w) as [[a|e] w1]; simpl in *.
  - apply (Hk a env w1 Hm).
  - exact Hm.
Qed.

Lemma leads_try_catch {A} (P Q : World -> Prop) (m : M A) (h : string -> M A) :
  leads P Q m -> (forall e, preserves Q (h e)) -> leads P Q (try_catch m h).
Proof.
  intros Hm Hh env w HP. specialize (Hm env w HP).
  unfold exec, try_catch in *. destruct (m env w) as [[a|e] w1]; simpl in *.
  - exact Hm.
  - apply (Hh e env w1 Hm).
Qed.

Lemma leads_finally {A} (P Q : World -> Prop) (m : M A) (f : M unit) :
  leads P Q m -> preserves Q f -> leads P Q (finally m f).
Proof.
  intros Hm Hf env w HP. specialize (Hm env w HP).
  unfold exec, finally in *. destruct (m env w) as [r w1]; simpl in *.
  specialize (Hf env w1 Hm). unfold exec in Hf.
  destruct (f env w1) as [[u|e] w2]; exact Hf.
Qed.

Lemma spawned_app evs1 evs2 : spawned (evs1 ++ evs2) = spawned evs1 ++ spawned evs2.
Proof. apply omap_app. Qed.

Lemma spawns_at_most_appends n w0 w w' :
  appends (fun ev => negb (is_spawn ev)) w w' ->
  spawns_at_most n w0 w -> spawns_at_most n w0 w'.
Proof.
  intros (evs' & Ht' & Hok) (evs & Ht & Hn). exists (evs ++ evs'). split.
  - rewrite Ht', Ht, app_assoc. reflexivity.
  - rewrite spawned_app, (spawned_none _ Hok), app_nil_r. exact Hn.
Qed.

Lemma spawns_at_most_stable n w0 :
  stable (fun ev => negb (is_spawn ev)) (spawns_at_most n w0).
Proof. intros w w' _. apply spawns_at_most_appends. Qed.

Lemma none_spawned_at_most n w0 w :
  appends (fun ev => negb (is_spawn ev)) w0 w -> spawns_at_most n w0 w.
Proof.
  intros (evs & Ht & Hok). exists evs. split; [exact Ht|].
  rewrite (spawned_none _ Hok). simpl. lia.
Qed.

Lemma spawn_leads cmd w0 :
  leads (appends (fun ev => negb (is_spawn ev)) w0) (spawns_at_most 1 w0) (spawn cmd).
Proof.
  intros env w (evs & Ht & Hok). unfold exec, spawn.
  case_match; simpl.
  - exists evs. split; [exact Ht|]. rewrite (spawned_none _ Hok). simpl. lia.
  - exists (evs ++ [EvSpawn cmd]). reduce_worlds.
    split; [rewrite Ht, app_assoc; reflexivity|].
    rewrite spawned_app, (spawned_none _ Hok). simpl. lia.
Qed.

Lemma executionWorker_spawns_once job w0 :
  leads (appends (fun ev => negb (is_spawn ev)) w0) (spawns_at_most 1 w0)
    (executionWorker job).
Proof.
  pose proof (none_spawned_at_most 1 w0) as Hweak.
  assert (Hup0 : forall st out err ms,
             preserves (appends (fun ev => negb (is_spawn ev)) w0)
               (DB.updateExecutionStatus (executionId job) st out err ms))
    by (intros; apply appends_updateExecutionStatus; reflexivity).
  assert (Hup1 : forall st out err ms,
             preserves (spawns_at_most 1 w0)
               (DB.updateExecutionStatus (executionId job) st out err ms))
    by (intros; apply (trace_only_updateExecutionStatus
                         (fun ev => negb (is_spawn ev)));
        [apply spawns_at_most_appends | reflexivity]).
  unfold executionWorker.
  apply leads_preserves_bind;
    [frame_with (appends_stable (fun ev => negb (is_spawn ev)) w0) | exact Hweak
    | intros startTime].
  apply leads_preserves_bind;
    [frame_with (appends_stable (fun ev => negb (is_spawn ev)) w0) | exact Hweak
    | intros _].
  apply leads_preserves_bind; [apply Hup0 | exact Hweak | intros _].
  apply leads_preserves_bind;
    [frame_with (appends_stable (fun ev => negb (is_spawn ev)) w0) | exact Hweak
    | intros dir].
  unfold guarded. apply leads_finally;
    [|frame_with (spawns_at_most_stable 1 w0)].
  apply leads_try_catch;
    [|intros e; unfold recover; frame_with (spawns_at_most_stable 1 w0)].
  unfold attempt.
  apply leads_preserves_bind;
    [frame_with (appends_stable (fun ev => negb (is_spawn ev)) w0) | exact Hweak
    | intros _].
  apply leads_preserves_bind;
    [frame_with (appends_stable (fun ev => negb (is_spawn ev)) w0) | exact Hweak
    | intros cmd].
  apply leads_bind_preserves; [apply spawn_leads | intros proc].
  frame_with (spawns_at_most_stable 1 w0).
Qed.

(** X4.  Whatever the outside does, one run of the handler starts at most
    one subprocess. *)
Theorem at_most_one_subprocess_per_run (env : Env) (job : ExecutionJob) (w : World) :
  (length (spawned (events_since w (exec (executionWorker job) env w))) <= 1)%nat.
Proof.
  destruct (executionWorker_spawns_once job w env w (appends_refl _ w))
    as (evs & Ht & Hn).
  rewrite (events_since_app _ _ _ Ht). exact Hn.
Qed.

(** *** The recorded duration *)

Lemma attempt_completed_at env job startTime path w t :
  calm env ->
  supported (language job) = true ->
  exit_after (run env (commandLine (language job) path)
                (<[path := code job]> (files w))) = Some t ->
  (t <? EXECUTION_TIMEOUT_MS) = true ->
  let p := run env (commandLine (language job) path)
             (<[path := code job]> (files w)) in
  let w1 := elapse env (elapse env
              (set_alive (reaped (S (tick w)))
                 (advance t (elapse env (after_spawn env job path w))))) in
  attempt job startTime path env w =
    (Ok tt,
     elapse env
       (emit (EvUpdate (executionId job) COMPLETED
                (Some (utf8_decode (proc_stdout p)))
                (or_null (utf8_decode (proc_stderr p)))
                (Some (now w1 - startTime)))
          (set_executions
             (alter (DB.overwrite COMPLETED
                       (Some (utf8_decode (proc_stdout p)))
                       (or_null (utf8_decode (proc_stderr p)))
                       (Some (now w1 - startTime)))
                    (executionId job))
             (elapse env
                (emit (EvLog ("[Worker] Finished " +:+ executionId job
                              +:+ " in " +:+ pretty (now w1 - startTime)
                              +:+ "ms")) w1))))).
Proof.
  intros Hcalm Hsup Ht Hlt. cbv zeta.
  unfold attempt. rewrite (resolveCommand_supported _ _ Hsup).
  unfold bind, writeFile, ret, spawn, race, text, Date_now, console_log.
  rewrite (proj1 (proj2 (Hcalm _))). reduce_worlds.
  rewrite (proj1 (proj2 (proj2 (Hcalm _)))). reduce_worlds.
  rewrite Ht, Hlt. reduce_worlds.
  rewrite !(proj2 (proj2 (proj2 (Hcalm _)))). reduce_worlds.
  rewrite updateExecutionStatus_up by apply Hcalm. reflexivity.
Qed.

(** X5.  The duration recorded for an execution is the wall-clock time from
    the moment the handler took the job, before its RUNNING write, to the
    moment the outcome of the run is known.  When nothing in the
    orchestration throws, a run whose subprocess exits [t] ms after its
    start, with [t] below 5000, records [t] plus the time of the seven calls
    made until then (the RUNNING write and its re-read, the file write, the
    spawn, the wait for the exit and the two reads); a run whose subprocess
    has not exited after 5000 ms records 5000 plus the time of the five
    calls up to the wait.  The terminal write and the cleanup are not
    counted. *)
Theorem duration_covers_the_whole_run (env : Env) (job : ExecutionJob) (w : World)
    (e0 : Execution) :
  calm env ->
  supported (language job) = true ->
  executions w !! executionId job = Some e0 ->
  (forall t, exit_after (subprocess_of env job w) = Some t -> t < 5000 ->
     execution_time_ms <$> executions (exec (executionWorker job) env w)
                             !! executionId job
     = Some (Some (waited env (tick w) 7 + t)))
  /\ (exit_after (subprocess_of env job w) = None
      \/ (exists t, exit_after (subprocess_of env job w) = Some t /\ 5000 < t) ->
      execution_time_ms <$> executions (exec (executionWorker job) env w)
                              !! executionId job
      = Some (Some (waited env (tick w) 5 + 5000))).
Proof.
  intros Hcalm Hsup Hrow.
  assert (Hdb : store_up env) by (intros t; apply Hcalm).
  unfold exec. rewrite executionWorker_running by apply Hdb.
  set (path := filePath env (executionId job) (language job)).
  split.
  - intros t Ht Hlt.
    rewrite (guarded_completed_run _ _ _ _ _ _
               (attempt_completed_at env job (now w) path (after_running env job w)
                  t Hcalm Hsup Ht (proj2 (Z.ltb_lt _ _) Hlt))).
    cbn [snd].
    match goal with |- context [exec (cleanup path) env ?w1] =>
      rewrite (cleanup_executions env path w1)
    end.
    unfold after_running, after_spawn. reduce_worlds.
    rewrite !lookup_alter_eq, Hrow. simpl. do 3 f_equal. lia.
  - intros Hlate. pose proof (exits_first_after _ Hlate) as Hexit.
    erewrite guarded_caught_run;
      [| exact Hdb
       | apply attempt_timeout;
         [apply Hcalm | apply Hcalm | exact Hsup | exact Hexit]].
    rewrite recover_up by exact Hdb. cbn [fst snd].
    match goal with |- context [exec (cleanup path) env ?w1] =>
      rewrite (cleanup_executions env path w1)
    end.
    unfold after_running, after_spawn. reduce_worlds.
    rewrite !lookup_alter_eq, Hrow. simpl. unfold EXECUTION_TIMEOUT_MS.
    do 3 f_equal. lia.
Qed.

(** *** The store *)

(** X6.  [updateExecutionStatus] is an overwrite of one row, last writer
    wins: when the store answers, it replaces status, stdout, stderr and
    duration of the row with the given id by the values it is given and
    returns the new row, with id and session as before, and of two updates
    of the same id in a row nothing of the first is left; for an id that is
    not in the table it returns null and changes nothing; it never changes
    another row. *)
Theorem updateExecutionStatus_overwrites_one_row (env : Env) (eid : string)
    (st st' : ExecutionStatus) (out err out' err' : option string)
    (ms ms' : option Z) (w : World) :
  store_up env ->
  (forall e, executions w !! eid = Some e ->
     outcome (DB.updateExecutionStatus eid st out err ms) env w
     = Ok (Some {| id := id e; session_id := session_id e; status := st;
                   stdout := out; stderr := err; execution_time_ms := ms |})
     /\ executions (exec (DB.updateExecutionStatus eid st out err ms) env w) !! eid
        = Some {| id := id e; session_id := session_id e; status := st;
                  stdout := out; stderr := err; execution_time_ms := ms |}
     /\ executions
          (exec (DB.updateExecutionStatus eid st' out' err' ms') env
             (exec (DB.updateExecutionStatus eid st out err ms) env w)) !! eid
        = Some {| id := id e; session_id := session_id e; status := st';
                  stdout := out'; stderr := err'; execution_time_ms := ms' |})
  /\ (executions w !! eid = None ->
        outcome (DB.updateExecutionStatus eid st out err ms) env w = Ok None
        /\ executions (exec (DB.updateExecutionStatus eid st out err ms) env w)
           = executions w)
  /\ (forall i, i <> eid ->
        executions (exec (DB.updateExecutionStatus eid st out err ms) env w) !! i
        = executions w !! i).
Proof.
  intros Hdb. unfold outcome, exec.
  rewrite !updateExecutionStatus_up by apply Hdb. reduce_worlds.
  rewrite !lookup_alter_eq. split; [|split].
  - intros e ->. auto.
  - intros Hnone. rewrite Hnone. split; [reflexivity|].
    apply map_eq. intros i. rewrite lookup_alter.
    case_decide as Heq; [subst i; rewrite Hnone|]; reflexivity.
  - intros i Hi. apply lookup_alter_ne. congruence.
Qed.

(** X7.  [createExecution] inserts a QUEUED row with no output and hands it
    back, and a read of that id then returns it; the insert is refused, and
    the table left as it was, when the id is taken or when the session does
    not exist. *)
Theorem createExecution_inserts_queued_row (env : Env) (eid sid : string) (w : World) :
  store_up env ->
  (executions w !! eid = None -> is_Some (sessions w !! sid) ->
   outcome (DB.createExecution eid sid) env w
   = Ok (Some {| id := eid; session_id := sid; status := QUEUED;
                 stdout := None; stderr := None; execution_time_ms := None |})
   /\ outcome (DB.getExecution eid) env (exec (DB.createExecution eid sid) env w)
      = Ok (Some {| id := eid; session_id := sid; status := QUEUED;
                    stdout := None; stderr := None; execution_time_ms := None |})
   /\ (forall i, i <> eid ->
         executions (exec (DB.createExecution eid sid) env w) !! i
         = executions w !! i))
  /\ (is_Some (executions w !! eid) \/ sessions w !! sid = None ->
      (exists e, outcome (DB.createExecution eid sid) env w = Throw e)
      /\ executions (exec (DB.createExecution eid sid) env w) = executions w).
Proof.
  intros Hdb.
  unfold outcome, exec, DB.createExecution, bind, DB.insertExecution, DB.getExecution.
  rewrite !Hdb. split.
  - intros Hfresh [s Hs]. rewrite Hfresh, Hs. reduce_worlds. rewrite !Hdb.
    reduce_worlds. rewrite lookup_insert_eq. repeat split.
    intros i Hi. apply lookup_insert_ne. congruence.
  - intros [[e He] | Hs].
    + rewrite He. simpl. eauto.
    + rewrite Hs. destruct (executions w !! eid); simpl; eauto.
Qed.

(** X8.  Sessions are created ACTIVE under their id and only their source
    text is ever replaced: [createSession] hands back the session it stored
    and is refused, with the table as it was, when the id is taken;
    [updateSessionCode] on a session just created hands back that session
    with the new source text and the language, status and id it had; on an
    id that is not in the table it returns null and changes nothing. *)
Theorem sessions_keep_all_but_their_source (env : Env)
    (sid lang src src' : string) (w : World) :
  store_up env ->
  (sessions w !! sid = None ->
   outcome (DB.createSession sid lang src) env w
   = Ok (Some {| cs_id := sid; cs_language := lang; cs_source_code := src;
                 cs_status := ACTIVE |})
   /\ outcome (DB.updateSessionCode sid src') env
        (exec (DB.createSession sid lang src) env w)
      = Ok (Some {| cs_id := sid; cs_language := lang; cs_source_code := src';
                    cs_status := ACTIVE |}))
  /\ (is_Some (sessions w !! sid) ->
      (exists e, outcome (DB.createSession sid lang src) env w = Throw e)
      /\ sessions (exec (DB.createSession sid lang src) env w) = sessions w)
  /\ (sessions w !! sid = None ->
      outcome (DB.updateSessionCode sid src') env w = Ok None
      /\ sessions (exec (DB.updateSessionCode sid src') env w) = sessions w)
  /\ (forall s, sessions w !! sid = Some s ->
      outcome (DB.updateSessionCode sid src') env w
      = Ok (Some {| cs_id := cs_id s; cs_language := cs_language s;
                    cs_source_code := src'; cs_status := cs_status s |})).
Proof.
  intros Hdb.
  unfold outcome, exec, DB.createSession, DB.updateSessionCode, bind,
    DB.insertSession, DB.updateSessionRow, DB.getSession.
  rewrite !Hdb. split; [|split; [|split]].
  - intros Hfresh. rewrite Hfresh. reduce_worlds. rewrite ?Hdb. reduce_worlds.
    rewrite lookup_alter_eq, lookup_insert_eq. split; reflexivity.
  - intros [s ->]. simpl. eauto.
  - intros Hnone. reduce_worlds. rewrite ?Hdb. reduce_worlds.
    rewrite lookup_alter_eq, Hnone. split; [reflexivity|].
    apply map_eq. intros i. rewrite lookup_alter.
    case_decide as Heq; [|reflexivity]. subst i. rewrite Hnone. reflexivity.
  - intros s Hs. reduce_worlds. rewrite ?Hdb. reduce_worlds.
    rewrite lookup_alter_eq, Hs. reflexivity.
Qed.

(** *** Rows and the sessions they belong to *)

Lemma well_keyed_framed : framed (fun _ => True) (fun _ => True) well_keyed.
Proof.
  intros w w' Hs _ _ _ Hk [HS HE]. split.
  - intros sid s. rewrite Hs. apply HS.
  - intros eid e He. pose proof (Hk eid) as Hke. rewrite He in Hke. simpl in Hke.
    destruct (executions w !! eid) as [e1|] eqn:He1; [|discriminate].
    injection Hke as Hid Hsid. destruct (HE eid e1 He1) as [Hid1 Hs1].
    rewrite Hs. unfold key_info in *. split; congruence.
Qed.

Lemma well_keyed_tables w w' :
  sessions w' = sessions w -> executions w' = executions w ->
  well_keyed w -> well_keyed w'.
Proof. unfold well_keyed. intros -> ->. auto. Qed.

Lemma well_keyed_queue_add name data opts :
  preserves well_keyed (queue_add name data opts).
Proof.
  intros env w H. unfold exec, queue_add.
  case_match; simpl; (eapply well_keyed_tables; [| |exact H]; reflexivity).
Qed.

Lemma well_keyed_createSession sid lang src :
  preserves well_keyed (DB.createSession sid lang src).
Proof.
  apply preserves_bind;
    [|intros _; apply (keeps_getSession _ _ _ well_keyed_framed)].
  intros env w [HS HE]. unfold exec, DB.insertSession.
  repeat case_match; simpl;
    try (eapply well_keyed_tables; [| |split; [exact HS|exact HE]]; reflexivity).
  split; simpl.
  - intros i s. rewrite lookup_insert. case_decide as Heq.
    + intros [= <-]. exact Heq.
    + apply HS.
  - intros eid e He. destruct (HE eid e He) as [Hid Hs]. split; [exact Hid|].
    rewrite lookup_insert_is_Some. destruct (decide (sid = session_id e)); auto.
Qed.

Lemma well_keyed_updateSessionCode sid src :
  preserves well_keyed (DB.updateSessionCode sid src).
Proof.
  apply preserves_bind;
    [|intros _; apply (keeps_getSession _ _ _ well_keyed_framed)].
  intros env w [HS HE]. unfold exec, DB.updateSessionRow.
  case_match; simpl;
    try (eapply well_keyed_tables; [| |split; [exact HS|exact HE]]; reflexivity).
  split; simpl.
  - intros i s. rewrite lookup_alter. case_decide as Heq; [|apply HS].
    subst i. destruct (sessions w !! sid) as [s0|] eqn:Hs0; [|discriminate].
    intros [= <-]. simpl. apply (HS sid s0 Hs0).
  - intros eid e He. destruct (HE eid e He) as [Hid Hs]. split; [exact Hid|].
    rewrite lookup_alter_is_Some. exact Hs.
Qed.

Lemma well_keyed_createExecution eid sid :
  preserves well_keyed (DB.createExecution eid sid).
Proof.
  apply preserves_bind;
    [|intros _; apply (keeps_getExecution _ _ _ well_keyed_framed)].
  intros env w [HS HE]. unfold exec, DB.insertExecution.
  repeat case_match; simpl;
    try (eapply well_keyed_tables; [| |split; [exact HS|exact HE]]; reflexivity).
  split; simpl; [exact HS|].
  intros i e. rewrite lookup_insert. case_decide as Heq.
  - intros [= <-]. simpl. split; [exact Heq | eauto].
  - apply HE.
Qed.

Lemma well_keyed_serve rq env w : well_keyed w -> well_keyed (serve rq env w).
Proof.
  pose proof well_keyed_framed as Fr.
  destruct rq as [lang src | sid lang src | sid | eid | job]; simpl.
  - apply preserves_try_catch; [|intros e; apply (keeps_onError _ _ _ Fr)].
    apply preserves_bind; [apply keeps_uuid | intros sid].
    apply preserves_bind; [apply well_keyed_createSession | intros [s|]].
    + apply preserves_ret.
    + apply preserves_throw.
  - apply preserves_try_catch; [|intros e; apply (keeps_onError _ _ _ Fr)].
    apply preserves_bind; [apply well_keyed_updateSessionCode | intros [s|]];
      apply preserves_ret.
  - apply preserves_try_catch; [|intros e; apply (keeps_onError _ _ _ Fr)].
    apply preserves_bind;
      [apply (keeps_getSession _ _ _ Fr) | intros [s|]; [|apply preserves_ret]].
    apply preserves_bind; [apply keeps_uuid | intros eid].
    apply preserves_bind; [apply well_keyed_createExecution | intros _].
    apply preserves_bind; [apply well_keyed_queue_add | intros _].
    apply preserves_ret.
  - apply preserves_try_catch; [|intros e; apply (keeps_onError _ _ _ Fr)].
    apply preserves_bind;
      [apply (keeps_getExecution _ _ _ Fr) | intros [e|]; [|apply preserves_ret]].
    destruct (is_terminal _); apply preserves_ret.
  - unfold executionWorker, guarded, attempt, recover.
    footprint_with Fr I I.
Qed.

(** X9.  Referential integrity is kept by everything the program does: from
    a world in which every session is stored under its id and every
    execution is stored under its id and belongs to an existing session, no
    sequence of requests and deliveries, under any behaviour of the outside,
    leads to a world in which that fails.  (Nothing deletes a session or an
    execution, and only [createExecution] adds an execution.) *)
Theorem referential_integrity_is_kept (w0 w : World) :
  well_keyed w0 -> serves w0 w -> well_keyed w.
Proof.
  intros H0. induction 1 as [|rq env w _ IH]; [exact H0|].
  apply well_keyed_serve, IH.
Qed.

(** *** The routes *)

(** X10.  Polling reads and never writes: whatever the outside does,
    [GET /executions/:id] leaves the tables, the files and the queue as they
    were; when the store throws, the client gets the generic error body and
    the message goes to the error log. *)
Theorem poll_changes_nothing (env : Env) (eid : string) (w : World) :
  unchanged w (exec (getExecutionRoute eid) env w)
  /\ (forall e, dbFault env (tick w) = Some e ->
        (exists r, outcome (getExecutionRoute eid) env w = Ok r
                   /\ body r = [("error", JString "Internal Server Error")])
        /\ events_since w (exec (getExecutionRoute eid) env w) = [EvError e]).
Proof.
  unfold unchanged, outcome, exec, getExecutionRoute, try_catch, bind,
    DB.getExecution, onError, console_error, ret.
  split.
  - repeat case_match; simplify_eq; auto.
  - intros e ->. reduce_worlds. split; [eauto|].
    apply events_since_app. reflexivity.
Qed.

(** X11.  [PATCH /code-sessions/:id] replaces the source text of a session
    and nothing else: for an id that is not in the table it answers 404 and
    leaves the table as it was; for a session of the table it answers 200
    with the id and the status of the session, whose language, status and id
    stay as they were even when the body names a language; no other session,
    no execution, no file and no job is touched. *)
Theorem patch_replaces_the_source_only (env : Env) (sid : string)
    (lang : option string) (src : string) (w : World) :
  store_up env ->
  (sessions w !! sid = None ->
   outcome (updateSessionRoute sid lang src) env w
   = Ok {| code_of := 404; body := [("error", JString "Session not found")] |}
   /\ sessions (exec (updateSessionRoute sid lang src) env w) = sessions w)
  /\ (forall s, sessions w !! sid = Some s ->
      outcome (updateSessionRoute sid lang src) env w
      = Ok {| code_of := 200;
              body := [("session_id", JString (cs_id s));
                       ("status", JString (session_status_name (cs_status s)))] |}
      /\ sessions (exec (updateSessionRoute sid lang src) env w) !! sid
         = Some {| cs_id := cs_id s; cs_language := cs_language s;
                   cs_source_code := src; cs_status := cs_status s |})
  /\ (forall i, i <> sid ->
        sessions (exec (updateSessionRoute sid lang src) env w) !! i
        = sessions w !! i)
  /\ executions (exec (updateSessionRoute sid lang src) env w) = executions w
  /\ files (exec (updateSessionRoute sid lang src) env w) = files w
  /\ queue (exec (updateSessionRoute sid lang src) env w) = queue w.
Proof.
  intros Hdb.
  unfold outcome, exec, updateSessionRoute, try_catch, DB.updateSessionCode, bind,
    DB.updateSessionRow, DB.getSession, ret.
  rewrite Hdb. reduce_worlds. rewrite Hdb. reduce_worlds.
  rewrite lookup_alter_eq. split; [|split; [|split]].
  - intros Hnone. rewrite Hnone. simpl. split; [reflexivity|].
    apply map_eq. intros i. rewrite lookup_alter.
    case_decide as Heq; [|reflexivity]. subst i. rewrite Hnone. reflexivity.
  - intros s Hs. rewrite Hs. simpl. rewrite lookup_alter_eq, Hs. auto.
  - intros i Hi. destruct (sessions w !! sid); simpl;
      apply lookup_alter_ne; congruence.
  - destruct (sessions w !! sid); simpl; auto.
Qed.

(** X12.  [POST /code-sessions] stores a new ACTIVE session under a fresh
    id, with the language of the body and its source text, the empty text
    when the body has none, and answers 200 with that id and "ACTIVE"; no
    other session is touched.  When the id is already taken nothing is
    stored. *)
Theorem post_session_stores_active_session (env : Env) (lang : string)
    (src : option string) (w : World) :
  store_up env ->
  (sessions w !! uuidv4 env (tick w) = None ->
   outcome (createSessionRoute lang src) env w
   = Ok {| code_of := 200;
           body := [("session_id", JString (uuidv4 env (tick w)));
                    ("status", JString "ACTIVE")] |}
   /\ sessions (exec (createSessionRoute lang src) env w) !! uuidv4 env (tick w)
      = Some {| cs_id := uuidv4 env (tick w); cs_language := lang;
                cs_source_code := default "" src; cs_status := ACTIVE |}
   /\ (forall i, i <> uuidv4 env (tick w) ->
         sessions (exec (createSessionRoute lang src) env w) !! i
         = sessions w !! i))
  /\ (is_Some (sessions w !! uuidv4 env (tick w)) ->
      sessions (exec (createSessionRoute lang src) env w) = sessions w).
Proof.
  intros Hdb.
  unfold outcome, exec, createSessionRoute, try_catch, DB.createSession, bind, uuid,
    DB.insertSession, DB.getSession, onError, console_error, ret, throw.
  rewrite Hdb. rewrite <- or_empty_default. split.
  - intros Hfresh. rewrite Hfresh. reduce_worlds. rewrite Hdb. reduce_worlds.
    rewrite lookup_insert_eq. simpl. rewrite lookup_insert_eq.
    split; [reflexivity|]. split; [reflexivity|].
    intros i Hi. apply lookup_insert_ne. congruence.
  - intros [s ->]. reflexivity.
Qed.

(** X13.  [POST /code-sessions/:id/run] on a session of the table, when
    store and queue answer and the fresh id is free, inserts one QUEUED
    execution of that session, appends one job to the queue that carries the
    id of that execution and the language and source text the session has at
    that moment, and answers 200 with the id and "QUEUED".  On an id that is
    not in the table it answers 404 and creates and enqueues nothing. *)
Theorem run_creates_row_and_job (env : Env) (sid : string) (w : World) :
  store_up env ->
  (forall t, queueFault env t = None) ->
  (sessions w !! sid = None ->
   outcome (runRoute sid) env w
   = Ok {| code_of := 404; body := [("error", JString "Session not found")] |}
   /\ executions (exec (runRoute sid) env w) = executions w
   /\ queue (exec (runRoute sid) env w) = queue w)
  /\ (forall s,
        sessions w !! sid = Some s ->
        is_Some (sessions w !! cs_id s) ->
        executions w !! uuidv4 env (S (tick w)) = None ->
        outcome (runRoute sid) env w
        = Ok {| code_of := 200;
                body := [("execution_id", JString (uuidv4 env (S (tick w))));
                         ("status", JString "QUEUED")] |}
        /\ executions (exec (runRoute sid) env w) !! uuidv4 env (S (tick w))
           = Some {| id := uuidv4 env (S (tick w)); session_id := cs_id s;
                     status := QUEUED; stdout := None; stderr := None;
                     execution_time_ms := None |}
        /\ queue (exec (runRoute sid) env w)
           = queue w ++
             [{| job_name := "execute";
                 job_data := {| executionId := uuidv4 env (S (tick w));
                                language := cs_language s;
                                code := cs_source_code s |};
                 job_opts := executionJobOpts |}]).
Proof.
  intros Hdb Hq.
  unfold outcome, exec, runRoute, try_catch, bind, DB.getSession, ret.
  rewrite Hdb. split.
  - intros ->. auto.
  - intros s Hs [s' Hs'] Hfresh. rewrite Hs.
    unfold uuid, DB.createExecution, bind, DB.insertExecution, DB.getExecution,
      addExecutionJob, queue_add.
    reduce_worlds. rewrite Hdb, Hfresh, Hs'. reduce_worlds.
    rewrite Hdb. reduce_worlds. rewrite Hq. reduce_worlds.
    rewrite lookup_insert_eq. auto.
Qed.

(** X14.  The run route does not undo the insert when the enqueue fails:
    when the queue refuses the job, the execution just created stays in the
    table as QUEUED, no job for it is in the queue, and the client gets the
    generic error body instead of the id. *)
Theorem run_leaves_queued_row_when_enqueue_fails (env : Env) (sid : string)
    (w : World) (s : CodeSession) (e : string) :
  store_up env ->
  queueFault env (S (S (S (tick w)))) = Some e ->
  sessions w !! sid = Some s ->
  is_Some (sessions w !! cs_id s) ->
  executions w !! uuidv4 env (S (tick w)) = None ->
  (exists r, outcome (runRoute sid) env w = Ok r
             /\ body r = [("error", JString "Internal Server Error")])
  /\ executions (exec (runRoute sid) env w) !! uuidv4 env (S (tick w))
     = Some {| id := uuidv4 env (S (tick w)); session_id := cs_id s;
               status := QUEUED; stdout := None; stderr := None;
               execution_time_ms := None |}
  /\ queue (exec (runRoute sid) env w) = queue w.
Proof.
  intros Hdb Hq Hs [s' Hs'] Hfresh.
  unfold outcome, exec, runRoute, try_catch, bind, DB.getSession, ret.
  rewrite Hdb, Hs.
  unfold uuid, DB.createExecution, bind, DB.insertExecution, DB.getExecution,
    addExecutionJob, queue_add, onError, bind, console_error, ret.
  reduce_worlds. rewrite Hdb, Hfresh, Hs'. reduce_worlds.
  rewrite Hdb. reduce_worlds. rewrite Hq. reduce_worlds.
  rewrite lookup_insert_eq. eauto.
Qed.

(** *** From the run to the answer *)

Lemma or_empty_or_null (s : string) : or_empty (or_null s) = s.
Proof.
  unfold or_null. destruct (String.eqb_spec s ""); [subst; reflexivity|].
  simpl. destruct (String.eqb_spec s ""); [contradiction | reflexivity].
Qed.

Lemma or_empty_Some (s : string) : or_empty (Some s) = s.
Proof. simpl. destruct (String.eqb_spec s ""); [subst|]; reflexivity. Qed.

(** X17.  A text survives the way through the store: when nothing in the
    orchestration throws, polling after a run whose subprocess exited less
    than 5000 ms after its start, and wrote UTF-8 text to its two streams,
    shows COMPLETED with exactly the text written to the output and to the
    error stream (an empty error stream is stored as NULL and read back as
    the empty text); polling after a run whose subprocess had not exited
    after 5000 ms shows TIMEOUT with an empty stdout and the timeout
    message, and nothing of what the subprocess wrote. *)
Theorem poll_shows_what_the_run_produced (env : Env) (job : ExecutionJob)
    (w : World) (e0 : Execution) :
  calm env ->
  supported (language job) = true ->
  executions w !! executionId job = Some e0 ->
  (forall t, exit_after (subprocess_of env job w) = Some t -> t < 5000 ->
     utf8_text (proc_stdout (subprocess_of env job w)) ->
     utf8_text (proc_stderr (subprocess_of env job w)) ->
     exists ms,
       outcome (getExecutionRoute (executionId job)) env
         (exec (executionWorker job) env w)
       = Ok {| code_of := 200;
               body :=
                 [("execution_id", JString (id e0));
                  ("status", JString "COMPLETED");
                  ("stdout", JString (proc_stdout (subprocess_of env job w)));
                  ("stderr", JString (proc_stderr (subprocess_of env job w)));
                  ("execution_time_ms", JNumber ms)] |})
  /\ (exit_after (subprocess_of env job w) = None
      \/ (exists t, exit_after (subprocess_of env job w) = Some t /\ 5000 < t) ->
      exists ms,
        outcome (getExecutionRoute (executionId job)) env
          (exec (executionWorker job) env w)
        = Ok {| code_of := 200;
                body :=
                  [("execution_id", JString (id e0));
                   ("status", JString "TIMEOUT");
                   ("stdout", JString "");
                   ("stderr", JString "Execution Timed Out");
                   ("execution_time_ms", JNumber ms)] |}).
Proof.
  intros Hcalm Hsup Hrow.
  assert (Hdb : store_up env) by (intros t; apply Hcalm).
  unfold outcome, getExecutionRoute, try_catch, bind, DB.getExecution, ret.
  rewrite Hdb. unfold exec. rewrite executionWorker_running by apply Hdb.
  set (path := filePath env (executionId job) (language job)).
  split.
  - intros t Ht Hlt Hout Herr.
    pose proof (exits_first_before _ _ Ht Hlt) as Hexit.
    destruct (attempt_completed env job (now w) path (after_running env job w)
                Hcalm Hsup Hexit) as (t' & w1 & w2 & Ha & Hw2 & Hw1).
    rewrite (guarded_completed_run _ _ _ _ _ _ Ha). cbn [snd].
    rewrite (cleanup_executions env path w2).
    subst w2 w1. unfold after_running, after_spawn. reduce_worlds.
    rewrite !lookup_alter_eq, Hrow. cbn [fmap option_fmap option_map DB.overwrite
      id session_id status stdout stderr execution_time_ms is_terminal fst snd
      nullable_number status_name].
    rewrite or_empty_or_null, or_empty_Some. fold path.
    change (run env (commandLine (language job) path)
              (<[path:=code job]> (files w))) with (subprocess_of env job w).
    rewrite (utf8_decode_text _ Hout), (utf8_decode_text _ Herr).
    eexists. reflexivity.
  - intros Hlate. pose proof (exits_first_after _ Hlate) as Hexit.
    erewrite guarded_caught_run;
      [| exact Hdb
       | apply attempt_timeout;
         [apply Hcalm | apply Hcalm | exact Hsup | exact Hexit]].
    rewrite recover_up by exact Hdb. cbn [fst snd].
    match goal with |- context [exec (cleanup path) env ?w1] =>
      rewrite (cleanup_executions env path w1)
    end.
    unfold after_running, after_spawn. reduce_worlds.
    rewrite !lookup_alter_eq, Hrow. simpl. eexists. reflexivity.
Qed.

(** *** The further properties at the sample runs *)

Lemma distinct_files_witness :
  "e1" <> "e2"
  /\ no_separator "e1" = true
  /\ no_separator "e2" = true
  /\ fileName "e1" "python" <> fileName "e2" "python"
  /\ filePath sample_env "e1" "python" <> filePath sample_env "e2" "python"
  /\ filePath sample_env "./e1" "python" = filePath sample_env "e1" "python".
Proof.
  assert (H : "e1" <> "e2") by discriminate.
  split; [exact H|]. do 2 (split; [reflexivity|]).
  destruct (distinct_executions_distinct_files sample_env "e1" "python" "e2"
              "python" H) as (Hname & Hpath & Hdot).
  split; [exact Hname|]. split; [exact (Hpath eq_refl eq_refl)|].
  exact (Hdot eq_refl).
Defined.

Lemma duration_witness :
  calm sample_env
  /\ supported (language slow_job) = true
  /\ executions sample_world !! executionId slow_job = Some queued_execution
  /\ exit_after (subprocess_of sample_env slow_job sample_world) = Some 4900
  /\ 4900 < 5000
  /\ execution_time_ms <$> executions (exec (executionWorker slow_job) sample_env
                                         sample_world) !! executionId slow_job
     = Some (Some 4907).
Proof.
  split; [exact sample_env_calm|]. do 2 (split; [reflexivity|]).
  split; [reflexivity|]. split; [lia|].
  exact (proj1 (duration_covers_the_whole_run sample_env slow_job sample_world
                  queued_execution sample_env_calm eq_refl eq_refl)
           4900 eq_refl eq_refl).
Defined.

Lemma update_overwrites_witness :
  store_up sample_env
  /\ executions sample_world !! "e1" = Some queued_execution
  /\ outcome (DB.updateExecutionStatus "e1" FAILED None (Some "boom") (Some 3))
       sample_env sample_world
     = Ok (Some {| id := "e1"; session_id := "s1"; status := FAILED;
                   stdout := None; stderr := Some "boom";
                   execution_time_ms := Some 3 |}).
Proof.
  split; [exact sample_env_store_up|]. split; [reflexivity|].
  exact (proj1 (proj1 (updateExecutionStatus_overwrites_one_row sample_env "e1"
                         FAILED COMPLETED None (Some "boom") None None (Some 3) None
                         sample_world sample_env_store_up)
                  queued_execution eq_refl)).
Defined.

Lemma createExecution_witness :
  store_up sample_env
  /\ executions sample_world !! "e2" = None
  /\ is_Some (sessions sample_world !! "s1")
  /\ outcome (DB.createExecution "e2" "s1") sample_env sample_world
     = Ok (Some {| id := "e2"; session_id := "s1"; status := QUEUED;
                   stdout := None; stderr := None; execution_time_ms := None |}).
Proof.
  assert (H : is_Some (sessions sample_world !! "s1"))
    by (exists sample_session; reflexivity).
  split; [exact sample_env_store_up|]. split; [reflexivity|]. split; [exact H|].
  exact (proj1 (proj1 (createExecution_inserts_queued_row sample_env "e2" "s1"
                         sample_world sample_env_store_up) eq_refl H)).
Defined.

Lemma sessions_witness :
  store_up sample_env
  /\ sessions sample_world !! "s2" = None
  /\ outcome (DB.updateSessionCode "s2" "print(2)") sample_env
       (exec (DB.createSession "s2" "python" "print(1)") sample_env sample_world)
     = Ok (Some {| cs_id := "s2"; cs_language := "python";
                   cs_source_code := "print(2)"; cs_status := ACTIVE |}).
Proof.
  split; [exact sample_env_store_up|]. split; [reflexivity|].
  exact (proj2 (proj1 (sessions_keep_all_but_their_source sample_env "s2" "python"
                         "print(1)" "print(2)" sample_world sample_env_store_up)
                  eq_refl)).
Defined.

Lemma empty_world_well_keyed : well_keyed empty_world.
Proof.
  split; intros k v H; simpl in H; rewrite lookup_empty in H; discriminate.
Defined.

Lemma referential_integrity_witness :
  well_keyed empty_world
  /\ serves empty_world
       (serve (Deliver hello_job) sample_env
          (serve (PostRun "uuid-0") sample_env
             (serve (PostSession "python" (Some "print('hi')")) sample_env
                empty_world)))
  /\ well_keyed
       (serve (Deliver hello_job) sample_env
          (serve (PostRun "uuid-0") sample_env
             (serve (PostSession "python" (Some "print('hi')")) sample_env
                empty_world))).
Proof.
  assert (H : serves empty_world
       (serve (Deliver hello_job) sample_env
          (serve (PostRun "uuid-0") sample_env
             (serve (PostSession "python" (Some "print('hi')")) sample_env
                empty_world))))
    by (do 3 apply serves_one; apply serves_none).
  split; [exact empty_world_well_keyed|]. split; [exact H|].
  exact (referential_integrity_is_kept _ _ empty_world_well_keyed H).
Defined.

Lemma poll_changes_nothing_witness :
  dbFault store_down_env (tick sample_world) = Some "ECONNREFUSED"
  /\ events_since sample_world
       (exec (getExecutionRoute "e1") store_down_env sample_world)
     = [EvError "ECONNREFUSED"].
Proof.
  split; [reflexivity|].
  exact (proj2 (proj2 (poll_changes_nothing store_down_env "e1" sample_world)
                  "ECONNREFUSED" eq_refl)).
Defined.

Lemma patch_witness :
  store_up sample_env
  /\ sessions sample_world !! "s1" = Some sample_session
  /\ sessions (exec (updateSessionRoute "s1" (Some "ruby") "print(2 + 2)")
                 sample_env sample_world) !! "s1"
     = Some {| cs_id := "s1"; cs_language := "python";
               cs_source_code := "print(2 + 2)"; cs_status := ACTIVE |}.
Proof.
  split; [exact sample_env_store_up|]. split; [reflexivity|].
  exact (proj2 (proj1 (proj2 (patch_replaces_the_source_only sample_env "s1"
                                (Some "ruby") "print(2 + 2)" sample_world
                                sample_env_store_up))
                  sample_session eq_refl)).
Defined.

Lemma post_session_witness :
  store_up sample_env
  /\ sessions empty_world !! uuidv4 sample_env (tick empty_world) = None
  /\ sessions (exec (createSessionRoute "python" None) sample_env empty_world)
       !! "uuid-0"
     = Some {| cs_id := "uuid-0"; cs_language := "python"; cs_source_code := "";
               cs_status := ACTIVE |}.
Proof.
  split; [exact sample_env_store_up|]. split; [reflexivity|].
  exact (proj1 (proj2 (proj1 (post_session_stores_active_session sample_env "python"
                                None empty_world sample_env_store_up) eq_refl))).
Defined.

Lemma run_witness :
  store_up sample_env
  /\ (forall t, queueFault sample_env t = None)
  /\ sessions sample_world !! "s1" = Some sample_session
  /\ is_Some (sessions sample_world !! cs_id sample_session)
  /\ executions sample_world !! uuidv4 sample_env (S (tick sample_world)) = None
  /\ queue (exec (runRoute "s1") sample_env sample_world)
     = [{| job_name := "execute";
           job_data := {| executionId := "uuid-1"; language := "python";
                          code := "print('hi')" |};
           job_opts := executionJobOpts |}].
Proof.
  assert (H : is_Some (sessions sample_world !! cs_id sample_session))
    by (exists sample_session; reflexivity).
  split; [exact sample_env_store_up|]. split; [intros t; reflexivity|].
  split; [reflexivity|]. split; [exact H|]. split; [reflexivity|].
  exact (proj2 (proj2 (proj2 (run_creates_row_and_job sample_env "s1" sample_world
                                sample_env_store_up (fun t => eq_refl))
                         sample_session eq_refl H eq_refl))).
Defined.

Lemma run_enqueue_fails_witness :
  store_up queue_down_env
  /\ queueFault queue_down_env (S (S (S (tick sample_world)))) = Some "ECONNREFUSED"
  /\ status <$> executions (exec (runRoute "s1") queue_down_env sample_world)
                  !! "uuid-1" = Some QUEUED
  /\ queue (exec (runRoute "s1") queue_down_env sample_world) = [].
Proof.
  assert (H : is_Some (sessions sample_world !! cs_id sample_session))
    by (exists sample_session; reflexivity).
  assert (Hdb : store_up queue_down_env) by (intros t; reflexivity).
  split; [exact Hdb|]. split; [reflexivity|].
  destruct (run_leaves_queued_row_when_enqueue_fails queue_down_env "s1"
              sample_world sample_session "ECONNREFUSED" Hdb eq_refl eq_refl H
              eq_refl) as (_ & Hrow & Hq).
  split; [|exact Hq].
  change (uuidv4 queue_down_env (S (tick sample_world))) with "uuid-1" in Hrow.
  rewrite Hrow. reflexivity.
Defined.

Lemma poll_shows_witness :
  calm sample_env
  /\ supported (language slow_job) = true
  /\ executions sample_world !! executionId slow_job = Some queued_execution
  /\ exit_after (subprocess_of sample_env slow_job sample_world) = Some 4900
  /\ 4900 < 5000
  /\ utf8_text (proc_stdout (subprocess_of sample_env slow_job sample_world))
  /\ utf8_text (proc_stderr (subprocess_of sample_env slow_job sample_world))
  /\ exists ms,
       outcome (getExecutionRoute "e1") sample_env
         (exec (executionWorker slow_job) sample_env sample_world)
       = Ok {| code_of := 200;
               body := [("execution_id", JString "e1");
                        ("status", JString "COMPLETED");
                        ("stdout", JString ("out" +:+ newline));
                        ("stderr", JString ("warn" +:+ newline));
                        ("execution_time_ms", JNumber ms)] |}.
Proof.
  assert (Hout : utf8_text (proc_stdout (subprocess_of sample_env slow_job
                                           sample_world)))
    by (split; reflexivity).
  assert (Herr : utf8_text (proc_stderr (subprocess_of sample_env slow_job
                                           sample_world)))
    by (split; reflexivity).
  split; [exact sample_env_calm|]. do 2 (split; [reflexivity|]).
  split; [reflexivity|]. split; [lia|]. split; [exact Hout|]. split; [exact Herr|].
  exact (proj1 (poll_shows_what_the_run_produced sample_env slow_job sample_world
                  queued_execution sample_env_calm eq_refl eq_refl)
           4900 eq_refl eq_refl Hout Herr).
Defined.
